(** * Anchor-based bounding boxes: geometry, R-CNN encoding, target assignment

    A shallow embedding of [labs/06/bboxes_utils.py].

    Conventions of the embedding.
    - A float entry of a tensor is an exact real number ([R]).  Rounding and
      the non-finite values of IEEE arithmetic are outside the model: where
      the source would produce one (a quotient by zero for two boxes of zero
      area, the logarithm of a non-positive size) the model has the value of
      Rocq's total [/] and [ln].  The theorems about the value of a quotient
      or a logarithm carry the hypotheses (positive sizes, positive areas)
      under which the source divides by a non-zero number and takes the
      logarithm of a positive one; the theorems about the two assignment
      loops hold for whatever real numbers the IoU matrix contains.
    - An entry of a [torch.long] tensor is an integer ([Z]); the one
      arithmetic operation on such entries, [1 + gold_classes[...]], wraps
      around at 64 bits as the tensor addition does.
    - A rank-2 tensor is its list of rows together with the size of its last
      dimension; reading a coordinate [t[..., k]] fails when [k] is not below
      that size.
    - A call that raises is a [Raise]; device placement is not modelled. *)

From Stdlib Require Import Reals Lra Lia ZArith.
From stdpp Require Import base decidable option list numbers.

#[local] Open Scope R_scope.

(** ** Results of fallible calls *)

Inductive exn : Type :=
| IndexError      (* an index outside a dimension: [t[..., k]], [t[idx]] *)
| EmptyReduction. (* [torch.argmax] / [torch.max] over zero elements *)

Inductive result (A : Type) : Type :=
| Ok (a : A)
| Raise (e : exn).
Arguments Ok {A} a.
Arguments Raise {A} e.

#[global] Instance result_ret : MRet result := fun _ a => Ok a.
#[global] Instance result_bind : MBind result := fun _ _ f m =>
  match m with
  | Ok a => f a
  | Raise e => Raise e
  end.

Definition succeeds {A} (m : result A) : Prop := exists a, m = Ok a.

(** ** Boxes *)

Definition TOP : nat := 0.
Definition LEFT : nat := 1.
Definition BOTTOM : nat := 2.
Definition RIGHT : nat := 3.

(** One box, the four entries [b[TOP]], [b[LEFT]], [b[BOTTOM]], [b[RIGHT]]. *)
Record Box : Type := mkBox { b_top : R; b_left : R; b_bottom : R; b_right : R }.

(** One R-CNN offset vector, the four entries of [rcnns[..., 0..3]]. *)
Record Rcnn : Type := mkRcnn { r_dy : R; r_dx : R; r_dh : R; r_dw : R }.

Definition well_formed (b : Box) : Prop :=
  b_top b <= b_bottom b /\ b_left b <= b_right b.

Definition positive_size (b : Box) : Prop :=
  0 < b_bottom b - b_top b /\ 0 < b_right b - b_left b.

(** [torch.relu], [torch.maximum], [torch.minimum] on one entry. *)
Definition relu (x : R) : R := Rmax 0 x.

Definition bboxes_area (b : Box) : R :=
  relu (b_bottom b - b_top b) * relu (b_right b - b_left b).

Definition intersection (xs ys : Box) : Box :=
  mkBox (Rmax (b_top xs) (b_top ys))
        (Rmax (b_left xs) (b_left ys))
        (Rmin (b_bottom xs) (b_bottom ys))
        (Rmin (b_right xs) (b_right ys)).

Definition bboxes_iou (xs ys : Box) : R :=
  let intersections := intersection xs ys in
  let xs_area := bboxes_area xs in
  let ys_area := bboxes_area ys in
  let intersections_area := bboxes_area intersections in
  intersections_area / (xs_area + ys_area - intersections_area).

Definition bboxes_to_rcnn (anchor bbox : Box) : Rcnn :=
  let anchor_height := b_bottom anchor - b_top anchor in
  let anchor_width := b_right anchor - b_left anchor in
  let anchor_center_y := (b_top anchor + b_bottom anchor) / 2 in
  let anchor_center_x := (b_left anchor + b_right anchor) / 2 in
  let bbox_height := b_bottom bbox - b_top bbox in
  let bbox_width := b_right bbox - b_left bbox in
  let bbox_center_y := (b_top bbox + b_bottom bbox) / 2 in
  let bbox_center_x := (b_left bbox + b_right bbox) / 2 in
  let dy := (bbox_center_y - anchor_center_y) / anchor_height in
  let dx := (bbox_center_x - anchor_center_x) / anchor_width in
  let dh := ln (bbox_height / anchor_height) in
  let dw := ln (bbox_width / anchor_width) in
  mkRcnn dy dx dh dw.

Definition bboxes_from_rcnn (anchor : Box) (rcnn : Rcnn) : Box :=
  let anchor_height := b_bottom anchor - b_top anchor in
  let anchor_width := b_right anchor - b_left anchor in
  let anchor_center_y := (b_top anchor + b_bottom anchor) / 2 in
  let anchor_center_x := (b_left anchor + b_right anchor) / 2 in
  let dy := r_dy rcnn in
  let dx := r_dx rcnn in
  let dh := r_dh rcnn in
  let dw := r_dw rcnn in
  let bbox_center_y := dy * anchor_height + anchor_center_y in
  let bbox_center_x := dx * anchor_width + anchor_center_x in
  let bbox_height := exp dh * anchor_height in
  let bbox_width := exp dw * anchor_width in
  let top := bbox_center_y - bbox_height / 2 in
  let left := bbox_center_x - bbox_width / 2 in
  let bottom := bbox_center_y + bbox_height / 2 in
  let right := bbox_center_x + bbox_width / 2 in
  mkBox top left bottom right.

(** ** Tensors of boxes *)

(** A rank-2 float tensor of shape [(length rows, last_dim)]. *)
Record tensor : Type := mkTensor { last_dim : nat; rows : list (list R) }.

(** [t[..., k]]: the bound is checked against the size of the last dimension,
    whatever the number of rows. *)
Definition coordinate (t : tensor) (k : nat) : result (list R -> R) :=
  if decide (k < last_dim t)%nat then Ok (fun r => nth k r 0) else Raise IndexError.

(** The four coordinate reads every box function of the source starts with. *)
Definition boxes_of (t : tensor) : result (list Box) :=
  top ← coordinate t TOP;
  left ← coordinate t LEFT;
  bottom ← coordinate t BOTTOM;
  right ← coordinate t RIGHT;
  mret (fmap (fun r => mkBox (top r) (left r) (bottom r) (right r)) (rows t)).

(** Broadcasting [bboxes_iou] over a column of anchors and a row of gold
    boxes: the row of the result for one anchor, and the whole matrix. *)
Definition iou_row (x : Box) (ys : list Box) : list R :=
  fmap (fun y => bboxes_iou x y) ys.
Definition iou_table (xs ys : list Box) : list (list R) :=
  fmap (fun x => iou_row x ys) xs.

(** [bboxes_iou(anchors.unsqueeze(1), gold_bboxes.unsqueeze(0))]: entry
    [(a, g)] is the IoU of anchor [a] and gold box [g]. *)
Definition iou_matrix (anchors gold_bboxes : tensor) : result (list (list R)) :=
  xs ← boxes_of anchors;
  ys ← boxes_of gold_bboxes;
  mret (iou_table xs ys).

(** [bboxes_to_rcnn] on two tensors with the same number of rows. *)
Definition bboxes_to_rcnn_rows (anchors bboxes : tensor) : result (list Rcnn) :=
  xs ← boxes_of anchors;
  ys ← boxes_of bboxes;
  mret (zip_with bboxes_to_rcnn xs ys).

(** ** Indexing and reductions *)

(** [l[i]] for a non-negative Python integer. *)
Definition index {A} (l : list A) (i : nat) : result A :=
  match l !! i with
  | Some x => Ok x
  | None => Raise IndexError
  end.

(** [l[i]] for an entry of an index tensor: negative entries count from the
    end. *)
Definition index_z {A} (l : list A) (i : Z) : result A :=
  let n := Z.of_nat (length l) in
  if decide (0 <= i < n)%Z then index l (Z.to_nat i)
  else if decide (- n <= i < 0)%Z then index l (Z.to_nat (n + i))
  else Raise IndexError.

(** [src[idx]] for an index tensor [idx]. *)
Definition gather {A} (src : list A) (idx : list Z) : result (list A) :=
  mapM (index_z src) idx.

(** [m[:, g]]. *)
Definition column (m : list (list R)) (g : nat) : result (list R) :=
  mapM (fun row => index row g) m.

(** Sequential scan for the first maximum: the running best is replaced only
    by a strictly larger entry. *)
Fixpoint scan_max (best_val : R) (best_idx : nat) (i : nat) (l : list R) : R * nat :=
  match l with
  | [] => (best_val, best_idx)
  | x :: l' =>
      if Rlt_dec best_val x then scan_max x i (S i) l'
      else scan_max best_val best_idx (S i) l'
  end.

(** [torch.max(l, dim=0)]: the maximum and the index of its first
    occurrence; raises on an empty dimension. *)
Definition torch_max (l : list R) : result (R * nat) :=
  match l with
  | [] => Raise EmptyReduction
  | x :: l' => Ok (scan_max x 0%nat 1%nat l')
  end.

(** [torch.argmax(l).item()]. *)
Definition torch_argmax (l : list R) : result nat :=
  p ← torch_max l; mret (snd p).

(** [for i in range(n)] threading the mutated state. *)
Fixpoint for_each {St} (body : St -> nat -> result St) (idxs : list nat) (s : St)
  : result St :=
  match idxs with
  | [] => Ok s
  | i :: idxs' => s' ← body s i; for_each body idxs' s'
  end.

Definition for_range {St} (n : nat) (body : St -> nat -> result St) (s : St)
  : result St :=
  for_each body (seq 0 n) s.

(** ** 64-bit integers of [torch.long] tensors *)

Definition wrap64 (z : Z) : Z := ((z + 2 ^ 63) mod 2 ^ 64 - 2 ^ 63)%Z.
Definition add64 (x y : Z) : Z := wrap64 (x + y).

(** ** Target assignment *)

(** Body of the first loop of [bboxes_training]. *)
Definition pass1_step (iou : list (list R)) (assigned_gold : list Z) (g : nat)
  : result (list Z) :=
  col ← column iou g;
  best_anchor ← torch_argmax col;
  cur ← index assigned_gold best_anchor;
  if decide (cur = -1)%Z
  then mret (<[best_anchor := Z.of_nat g]> assigned_gold)
  else mret assigned_gold.

(** Body of the second loop of [bboxes_training]. *)
Definition pass2_step (iou : list (list R)) (iou_threshold : R)
    (assigned_gold : list Z) (a : nat) : result (list Z) :=
  cur ← index assigned_gold a;
  if decide (cur = -1)%Z then
    row ← index iou a;
    p ← torch_max row;
    let best_iou := fst p in
    let best_gold := snd p in
    if Rge_dec best_iou iou_threshold
    then mret (<[a := Z.of_nat best_gold]> assigned_gold)
    else mret assigned_gold
  else mret assigned_gold.

Definition pass1 (iou : list (list R)) (num_gold : nat) (assigned_gold : list Z)
  : result (list Z) :=
  for_range num_gold (pass1_step iou) assigned_gold.

Definition pass2 (iou : list (list R)) (iou_threshold : R) (num_anchors : nat)
    (assigned_gold : list Z) : result (list Z) :=
  for_range num_anchors (pass2_step iou iou_threshold) assigned_gold.

(** The part of [bboxes_training] up to the end of the second loop: the final
    contents of [assigned_gold]. *)
Definition assign_anchors (anchors gold_bboxes : tensor) (iou_threshold : R)
  : result (list Z) :=
  let num_anchors := length (rows anchors) in
  let num_gold := length (rows gold_bboxes) in
  let assigned_gold := replicate num_anchors (-1)%Z in
  iou ← iou_matrix anchors gold_bboxes;
  assigned_gold ← pass1 iou num_gold assigned_gold;
  pass2 iou iou_threshold num_anchors assigned_gold.

(** [t[mask]]: the entries whose mask bit is set, in order. *)
Fixpoint masked_select {A} (l : list A) (mask : list bool) : list A :=
  match l, mask with
  | x :: l', true :: mask' => x :: masked_select l' mask'
  | _ :: l', false :: mask' => masked_select l' mask'
  | _, _ => []
  end.

(** [dst[mask] = vals]: the entries whose mask bit is set are replaced by the
    values, in order.  (The source always supplies as many values as there are
    bits set; they were selected by the same mask.) *)
Fixpoint masked_assign {A} (dst : list A) (mask : list bool) (vals : list A) : list A :=
  match dst, mask with
  | d :: dst', true :: mask' =>
      match vals with
      | v :: vals' => v :: masked_assign dst' mask' vals'
      | [] => d :: masked_assign dst' mask' []
      end
  | d :: dst', false :: mask' => d :: masked_assign dst' mask' vals
  | _, _ => dst
  end.

(** [mask.any()]. *)
Definition any (mask : list bool) : bool := existsb (fun b => b) mask.

Definition zero_rcnn : Rcnn := mkRcnn 0 0 0 0.

(** The part of [bboxes_training] after the second loop. *)
Definition materialize (anchors : tensor) (gold_classes : list Z)
    (gold_bboxes : tensor) (assigned_gold : list Z) : result (list Z * list Rcnn) :=
  let num_anchors := length (rows anchors) in
  let anchor_classes := replicate num_anchors 0%Z in
  let anchor_bboxes := replicate num_anchors zero_rcnn in
  let assigned_mask := fmap (fun v => bool_decide (v <> (-1)%Z)) assigned_gold in
  if any assigned_mask then
    let gold_idx := masked_select assigned_gold assigned_mask in
    classes ← gather gold_classes gold_idx;
    let anchor_classes :=
      masked_assign anchor_classes assigned_mask (fmap (add64 1) (classes : list Z)) in
    gold_rows ← gather (rows gold_bboxes) gold_idx;
    rcnns ← bboxes_to_rcnn_rows
               (mkTensor (last_dim anchors) (masked_select (rows anchors) assigned_mask))
               (mkTensor (last_dim gold_bboxes) gold_rows);
    let anchor_bboxes := masked_assign anchor_bboxes assigned_mask rcnns in
    mret (anchor_classes, anchor_bboxes)
  else mret (anchor_classes, anchor_bboxes).

Definition bboxes_training (anchors : tensor) (gold_classes : list Z)
    (gold_bboxes : tensor) (iou_threshold : R) : result (list Z * list Rcnn) :=
  assigned_gold ← assign_anchors anchors gold_bboxes iou_threshold;
  materialize anchors gold_classes gold_bboxes assigned_gold.

(** ** Vocabulary of the statements *)

(** The column of the IoU matrix for one gold box. *)
Definition iou_column (xs : list Box) (y : Box) : list R :=
  fmap (fun x => bboxes_iou x y) xs.

(** The box stored in one row of a tensor whose last dimension is at least 4. *)
Definition row_box (r : list R) : Box :=
  mkBox (nth TOP r 0) (nth LEFT r 0) (nth BOTTOM r 0) (nth RIGHT r 0).

(** [v] is the maximum of [l] and [i] the smallest index holding it. *)
Definition first_max (l : list R) (i : nat) (v : R) : Prop :=
  l !! i = Some v /\
  (forall j x, l !! j = Some x -> x <= v) /\
  (forall j x, (j < i)%nat -> l !! j = Some x -> x < v).

(** Anchor [a] has maximum IoU against the gold box [y], and is the smallest
    such anchor index. *)
Definition best_anchor (xs : list Box) (y : Box) (a : nat) : Prop :=
  exists v, first_max (iou_column xs y) a v.

(** Gold index [g] has maximum IoU [v] against the anchor [x], and is the
    smallest such gold index. *)
Definition best_gold (x : Box) (ys : list Box) (g : nat) (v : R) : Prop :=
  first_max (iou_row x ys) g v.

(** An entry of [assigned_gold]: the sentinel or a gold index. *)
Definition assignment_entry (num_gold : nat) (v : Z) : Prop :=
  v = (-1)%Z \/ (0 <= v < Z.of_nat num_gold)%Z.

(** What the first loop has established once the gold objects below [n] are
    processed: every anchor is either free and the best anchor of none of
    them, or held by the smallest of them whose best anchor it is. *)
Definition pass1_state (xs ys : list Box) (n : nat) (assigned_gold : list Z) : Prop :=
  length assigned_gold = length xs /\
  forall a, (a < length xs)%nat ->
    (assigned_gold !! a = Some (-1)%Z /\
     forall g y, (g < n)%nat -> ys !! g = Some y -> ~ best_anchor xs y a) \/
    (exists g y, (g < n)%nat /\ ys !! g = Some y /\
       assigned_gold !! a = Some (Z.of_nat g) /\ best_anchor xs y a /\
       forall g' y', (g' < g)%nat -> ys !! g' = Some y' -> ~ best_anchor xs y' a).

(** What the second loop has established once the anchors below [n] are
    processed, starting from [before]: an anchor already assigned keeps its
    gold object, a free one takes its best gold object exactly when the
    maximum reaches the threshold; the anchors from [n] on are untouched. *)
Definition pass2_entry (ys : list Box) (iou_threshold : R) (x : Box) (cur v : Z) : Prop :=
  (cur <> (-1)%Z -> v = cur) /\
  (cur = (-1)%Z ->
   exists g m, best_gold x ys g m /\
     (iou_threshold <= m -> v = Z.of_nat g) /\
     (m < iou_threshold -> v = (-1)%Z)).

Definition pass2_state (xs ys : list Box) (iou_threshold : R) (before : list Z)
    (n : nat) (assigned_gold : list Z) : Prop :=
  length assigned_gold = length xs /\
  (forall a, (n <= a)%nat -> assigned_gold !! a = before !! a) /\
  (forall a x cur, (a < n)%nat -> xs !! a = Some x -> before !! a = Some cur ->
     exists v, assigned_gold !! a = Some v /\ pass2_entry ys iou_threshold x cur v).

(** The four anchors of the source's own test, a 2 x 2 grid of 10 x 10
    cells, and two overlapping gold boxes whose best anchor is the first cell,
    both with IoU 1/2. *)
Definition grid_anchors : list Box :=
  [mkBox 0 0 10 10; mkBox 0 10 10 20; mkBox 10 0 20 10; mkBox 10 10 20 20].
Definition contested_golds : list Box :=
  [mkBox 0 0 10 5; mkBox 0 4 10 12].

(** Concrete calls: one anchor and an empty gold tensor of shape (0, 4); one
    anchor and one gold box stored in tensors whose last dimension is 5; one
    anchor stored in a tensor whose last dimension is 3. *)
Definition one_anchor : tensor := mkTensor 4 [[0; 0; 10; 10]].
Definition no_gold : tensor := mkTensor 4 [].
Definition wide_anchor : tensor := mkTensor 5 [[0; 0; 10; 10; 7]].
Definition wide_gold : tensor := mkTensor 5 [[2; 2; 8; 8; 7]].
Definition short_anchor : tensor := mkTensor 3 [[0; 0; 10]].

(** The anchors and the gold box [[0, 0, 20, 20]] of [test_bboxes_training], as tensors. *)
Definition grid_tensor : tensor :=
  mkTensor 4 [[0; 0; 10; 10]; [0; 10; 10; 20]; [10; 0; 20; 10]; [10; 10; 20; 20]].
Definition big_gold : tensor := mkTensor 4 [[0; 0; 20; 20]].

(** The two gold boxes of [contested_golds], as a tensor. *)
Definition contested_tensor : tensor := mkTensor 4 [[0; 0; 10; 5]; [0; 4; 10; 12]].

(** The tensor cut down to its first four columns. *)
Definition narrow (t : tensor) : tensor :=
  mkTensor 4 (fmap (take 4) (rows t)).

(** ** Moving and resizing boxes *)

(** A box with its rows multiplied by [scale_y] and its columns by
    [scale_x], and a box moved by [(dy, dx)]. *)
Definition scale_box (scale_y scale_x : R) (b : Box) : Box :=
  mkBox (b_top b * scale_y) (b_left b * scale_x)
        (b_bottom b * scale_y) (b_right b * scale_x).

Definition shift_box (dy dx : R) (b : Box) : Box :=
  mkBox (b_top b + dy) (b_left b + dx) (b_bottom b + dy) (b_right b + dx).

(** Box [a] lies inside box [b]. *)
Definition inside (a b : Box) : Prop :=
  b_top b <= b_top a /\ b_bottom a <= b_bottom b /\
  b_left b <= b_left a /\ b_right a <= b_right b.

(** Two boxes whose interiors do not meet: one ends before the other starts,
    along the rows or along the columns. *)
Definition apart (a b : Box) : Prop :=
  b_bottom a <= b_top b \/ b_bottom b <= b_top a \/
  b_right a <= b_left b \/ b_right b <= b_left a.

(** ** The callers: batches of gold objects and grids of anchors

    From [labs/06/svhn_competition-og.py] and
    [labs/05/cags_classification_npfl.py].  A call that raises is [None]. *)

(** One item of a batch as [custom_collate] receives it:
    [(image, (classes, bboxes))]. *)
Record labelled (Image : Type) : Type :=
  mkLabelled { l_image : Image; l_classes : list Z; l_bboxes : tensor }.
Arguments mkLabelled {Image} _ _ _.
Arguments l_image {Image} _.
Arguments l_classes {Image} _.
Arguments l_bboxes {Image} _.

(** Python's [max] of a list of lengths; raises on the empty list. *)
Definition py_max (l : list nat) : option nat :=
  match l with
  | [] => None
  | x :: l' => Some (foldl Nat.max x l')
  end.

(** [torch.cat([t, pad], dim=0)] of two rank-2 tensors: the last dimensions
    have to agree. *)
Definition cat_rows (t pad : tensor) : option tensor :=
  if decide (last_dim t = last_dim pad)
  then Some (mkTensor (last_dim t) (rows t ++ rows pad))
  else None.

(** [torch.stack(l, dim=0)]: the list is not empty and its tensors all have
    the shape of the first one. *)
Definition stack {A Shape} `{EqDecision Shape} (shape : A -> Shape) (l : list A)
  : option (list A) :=
  match l with
  | [] => None
  | x :: l' =>
      if forallb (fun y => bool_decide (shape y = shape x)) l' then Some l else None
  end.

Definition tensor_shape (t : tensor) : nat * nat := (length (rows t), last_dim t).

(** Body of the loop of [custom_collate]. *)
Definition pad_item (max_len : nat) (cls : list Z) (bboxes : tensor)
  : option (list Z * tensor) :=
  let num := length cls in
  if decide (num < max_len)%nat then
    let pad := replicate (max_len - num) (-1)%Z in
    let cls := cls ++ pad in
    let pad_boxes := mkTensor 4 (replicate (max_len - num) [0; 0; 0; 0]) in
    bboxes ← cat_rows bboxes pad_boxes;
    Some (cls, bboxes)
  else Some (cls, bboxes).

(** [custom_collate]; the stacking of the images is a parameter. *)
Definition custom_collate {Image Images} (stack_images : list Image -> option Images)
    (batch : list (labelled Image))
  : option (Images * (list (list Z) * list tensor)) :=
  images ← stack_images (l_image <$> batch);
  let lengths := (fun item => length (l_classes item)) <$> batch in
  max_len ← py_max lengths;
  padded ← mapM (fun item => pad_item max_len (l_classes item) (l_bboxes item)) batch;
  padded_classes ← stack length (fst <$> padded);
  padded_bboxes ← stack tensor_shape (snd <$> padded);
  Some (images, (padded_classes, padded_bboxes)).

(** The first three lines of the loop of [compute_loss]: the gold objects of
    one image are the entries of the padded tensors whose class is not -1.
    Indexing with a mask of another length raises. *)
Definition valid_gold (padded_classes : list Z) (padded_bboxes : tensor)
  : option (list Z * tensor) :=
  let valid := (fun c => bool_decide (c <> (-1)%Z)) <$> padded_classes in
  let gold_classes := masked_select padded_classes valid in
  if decide (length valid = length (rows padded_bboxes)) then
    Some (gold_classes,
          mkTensor (last_dim padded_bboxes) (masked_select (rows padded_bboxes) valid))
  else None.

(** The anchors computed at the end of [SVHNDetector.forward] from the sizes
    [(H, W)] of the input and [(H_out, W_out)] of the head's output: one
    anchor per output cell, in row-major order, centred on the cell.  In
    [svhn_competition-og.py] the anchors are squares of side
    [fixed_anchor_size]; in [cags_classification_npfl.py] they are the cells.
    The integer divisions by [H_out] and [W_out] raise on zero. *)
Definition cell_centres (size_out : nat) (stride : R) : list R :=
  (fun i => (INR i + 1 / 2) * stride) <$> seq 0 size_out.

Definition grid_of (half_h half_w : R) (ys xs : list R) : list Box :=
  concat ((fun grid_y =>
             (fun grid_x => mkBox (grid_y - half_h) (grid_x - half_w)
                                  (grid_y + half_h) (grid_x + half_w)) <$> xs) <$> ys).

Definition anchors_fixed (fixed_anchor_size : R) (H W H_out W_out : nat)
  : option (list Box) :=
  if decide (H_out = 0%nat) then None
  else if decide (W_out = 0%nat) then None
  else
    let stride_y := INR H / INR H_out in
    let stride_x := INR W / INR W_out in
    let ys := cell_centres H_out stride_y in
    let xs := cell_centres W_out stride_x in
    let half_size := fixed_anchor_size / 2 in
    Some (grid_of half_size half_size ys xs).

Definition anchors_cells (H W H_out W_out : nat) : option (list Box) :=
  if decide (H_out = 0%nat) then None
  else if decide (W_out = 0%nat) then None
  else
    let stride_y := INR H / INR H_out in
    let stride_x := INR W / INR W_out in
    let ys := cell_centres H_out stride_y in
    let xs := cell_centres W_out stride_x in
    let half_h := stride_y / 2 in
    let half_w := stride_x / 2 in
    Some (grid_of half_h half_w ys xs).

(** * Geometry *)

Section Geometry.

Lemma relu_nonneg x : 0 <= relu x.
Proof. unfold relu. apply Rmax_l. Qed.

Lemma relu_pos x : 0 < x -> relu x = x.
Proof. intros Hx. unfold relu. apply Rmax_right. lra. Qed.

Lemma relu_pos_inv x : 0 < relu x -> 0 < x.
Proof. unfold relu, Rmax. destruct (Rle_dec 0 x); lra. Qed.

(** The overlap of two intervals is no longer than the first of them. *)
Lemma overlap_le_l lo1 hi1 lo2 hi2 :
  relu (Rmin hi1 hi2 - Rmax lo1 lo2) <= relu (hi1 - lo1).
Proof.
  unfold relu, Rmax, Rmin.
  repeat match goal with |- context [Rle_dec ?a ?b] => destruct (Rle_dec a b) end; lra.
Qed.

Lemma overlap_le_r lo1 hi1 lo2 hi2 :
  relu (Rmin hi1 hi2 - Rmax lo1 lo2) <= relu (hi2 - lo2).
Proof.
  unfold relu, Rmax, Rmin.
  repeat match goal with |- context [Rle_dec ?a ?b] => destruct (Rle_dec a b) end; lra.
Qed.

Lemma bboxes_area_nonneg b : 0 <= bboxes_area b.
Proof. unfold bboxes_area. apply Rmult_le_pos; apply relu_nonneg. Qed.

Lemma intersection_area_le_l xs ys :
  bboxes_area (intersection xs ys) <= bboxes_area xs.
Proof.
  unfold bboxes_area, intersection; simpl.
  apply Rmult_le_compat; try apply relu_nonneg; apply overlap_le_l.
Qed.

Lemma intersection_area_le_r xs ys :
  bboxes_area (intersection xs ys) <= bboxes_area ys.
Proof.
  unfold bboxes_area, intersection; simpl.
  apply Rmult_le_compat; try apply relu_nonneg; apply overlap_le_r.
Qed.

(** The union area is at least the area of either box. *)
Lemma union_area_ge_r xs ys :
  bboxes_area ys <=
  bboxes_area xs + bboxes_area ys - bboxes_area (intersection xs ys).
Proof. pose proof (intersection_area_le_l xs ys). lra. Qed.

Lemma positive_area_size b : 0 < bboxes_area b -> positive_size b.
Proof.
  unfold bboxes_area, positive_size. intros H.
  pose proof (relu_nonneg (b_bottom b - b_top b)) as Hh.
  pose proof (relu_nonneg (b_right b - b_left b)) as Hw.
  split; apply relu_pos_inv.
  - destruct Hh as [Hh | Hh]; [exact Hh | rewrite <- Hh in H; lra].
  - destruct Hw as [Hw | Hw]; [exact Hw | rewrite <- Hw in H; lra].
Qed.

Lemma positive_size_area b : positive_size b -> 0 < bboxes_area b.
Proof.
  intros [Hh Hw]. unfold bboxes_area.
  rewrite !relu_pos by assumption. apply Rmult_lt_0_compat; assumption.
Qed.

(** With a gold box of positive area the IoU is a quotient by a positive
    number and lies in [[0, 1]]. *)
Lemma bboxes_iou_range_r xs ys :
  0 < bboxes_area ys -> 0 <= bboxes_iou xs ys <= 1.
Proof.
  intros Hy. unfold bboxes_iou; cbv zeta.
  pose proof (bboxes_area_nonneg (intersection xs ys)) as Hi.
  pose proof (intersection_area_le_l xs ys) as Hl.
  pose proof (intersection_area_le_r xs ys) as Hr.
  set (i := bboxes_area (intersection xs ys)) in *.
  set (d := bboxes_area xs + bboxes_area ys - i).
  assert (Hd : 0 < d) by (unfold d; lra).
  split.
  - apply Rmult_le_pos; [exact Hi | left; apply Rinv_0_lt_compat; exact Hd].
  - apply Rmult_le_reg_r with d; [exact Hd |].
    unfold Rdiv. rewrite Rmult_assoc, Rinv_l by lra. unfold d. lra.
Qed.

(** C1. Round-trip law: for an anchor and a box of strictly positive height
    and width, decoding with [bboxes_from_rcnn] what [bboxes_to_rcnn]
    encoded gives the box back, exactly, in real arithmetic. *)
Theorem rcnn_round_trip anchor bbox :
  positive_size anchor -> positive_size bbox ->
  bboxes_from_rcnn anchor (bboxes_to_rcnn anchor bbox) = bbox.
Proof.
  destruct anchor as [at_ al ab ar], bbox as [bt bl bb br].
  unfold positive_size, bboxes_from_rcnn, bboxes_to_rcnn; simpl.
  intros [Hah Haw] [Hbh Hbw].
  rewrite !exp_ln by (apply Rdiv_lt_0_compat; assumption).
  f_equal; field; lra.
Qed.

Lemma rcnn_round_trip_witness :
  positive_size (mkBox 0 9 10 19) /\ positive_size (mkBox 2 10 5 16) /\
  bboxes_from_rcnn (mkBox 0 9 10 19)
    (bboxes_to_rcnn (mkBox 0 9 10 19) (mkBox 2 10 5 16)) = mkBox 2 10 5 16.
Proof.
  assert (Ha : positive_size (mkBox 0 9 10 19)) by (unfold positive_size; simpl; lra).
  assert (Hb : positive_size (mkBox 2 10 5 16)) by (unfold positive_size; simpl; lra).
  split; [exact Ha | split; [exact Hb | exact (rcnn_round_trip _ _ Ha Hb)]].
Defined.

(** C9. IoU bounds: for two well-formed boxes of strictly positive area the
    denominator [area(a) + area(b) - intersection_area] is strictly
    positive and [bboxes_iou a b] lies between 0 and 1. *)
Theorem bboxes_iou_bounds a b :
  well_formed a -> well_formed b ->
  0 < bboxes_area a -> 0 < bboxes_area b ->
  0 < bboxes_area a + bboxes_area b - bboxes_area (intersection a b) /\
  0 <= bboxes_iou a b <= 1.
Proof.
  intros _ _ Ha Hb. split.
  - pose proof (union_area_ge_r a b). lra.
  - apply bboxes_iou_range_r. exact Hb.
Qed.

Lemma bboxes_iou_bounds_witness :
  0 < bboxes_area (mkBox 0 0 10 10) + bboxes_area (mkBox 5 5 15 15)
      - bboxes_area (intersection (mkBox 0 0 10 10) (mkBox 5 5 15 15)) /\
  0 <= bboxes_iou (mkBox 0 0 10 10) (mkBox 5 5 15 15) <= 1.
Proof.
  apply bboxes_iou_bounds.
  - unfold well_formed; simpl; lra.
  - unfold well_formed; simpl; lra.
  - apply positive_size_area; unfold positive_size; simpl; lra.
  - apply positive_size_area; unfold positive_size; simpl; lra.
Defined.

(** C10. The decoder returns a well-formed box: for an anchor of strictly
    positive height and width and any offsets, the decoded box has
    [top <= bottom] and [left <= right]; its height is
    [exp(dh) * anchor_height] and its width [exp(dw) * anchor_width], both
    non-negative. *)
Theorem bboxes_from_rcnn_well_formed anchor rcnn :
  positive_size anchor ->
  let box := bboxes_from_rcnn anchor rcnn in
  well_formed box /\
  b_bottom box - b_top box = exp (r_dh rcnn) * (b_bottom anchor - b_top anchor) /\
  b_right box - b_left box = exp (r_dw rcnn) * (b_right anchor - b_left anchor) /\
  0 <= b_bottom box - b_top box /\ 0 <= b_right box - b_left box.
Proof.
  destruct anchor as [at_ al ab ar], rcnn as [dy dx dh dw].
  unfold positive_size, well_formed, bboxes_from_rcnn; simpl.
  intros [Hah Haw].
  pose proof (exp_pos dh) as Hh. pose proof (exp_pos dw) as Hw.
  pose proof (Rmult_lt_0_compat _ _ Hh Hah) as Hbh.
  pose proof (Rmult_lt_0_compat _ _ Hw Haw) as Hbw.
  repeat split; lra.
Qed.

Lemma bboxes_from_rcnn_well_formed_witness :
  well_formed (bboxes_from_rcnn (mkBox 0 0 10 10) (mkRcnn 7 (-3) (-100) 100)).
Proof.
  apply (bboxes_from_rcnn_well_formed (mkBox 0 0 10 10) (mkRcnn 7 (-3) (-100) 100)).
  unfold positive_size; simpl; lra.
Defined.

End Geometry.

(** ** Evaluation on concrete boxes *)

(** The IoU is the number [v] when the intersection is [v] times the union. *)
Lemma bboxes_iou_value x y v :
  0 < bboxes_area x + bboxes_area y - bboxes_area (intersection x y) ->
  bboxes_area (intersection x y)
  = v * (bboxes_area x + bboxes_area y - bboxes_area (intersection x y)) ->
  bboxes_iou x y = v.
Proof.
  intros Hd Hv. unfold bboxes_iou; cbv zeta. rewrite Hv at 1. field. lra.
Qed.

Ltac real_cases :=
  repeat match goal with
  | |- context [Rmax ?a ?b] =>
      first [ rewrite (Rmax_left a b) by lra | rewrite (Rmax_right a b) by lra ]
  | |- context [Rmin ?a ?b] =>
      first [ rewrite (Rmin_left a b) by lra | rewrite (Rmin_right a b) by lra ]
  end.

Ltac real_tests :=
  repeat match goal with
  | |- context [Rlt_dec ?a ?b] =>
      destruct (Rlt_dec a b); [try (exfalso; lra) | try (exfalso; lra)]
  | |- context [Rge_dec ?a ?b] =>
      destruct (Rge_dec a b); [try (exfalso; lra) | try (exfalso; lra)]
  end.

Ltac iou_eval :=
  apply bboxes_iou_value; unfold bboxes_area, intersection, relu; simpl;
  real_cases; lra.


(** * Fallible calls, indexing, reductions *)

Section Results.

Context {A B : Type}.

Lemma bind_Ok (m : result A) (f : A -> result B) b :
  m ≫= f = Ok b -> exists a, m = Ok a /\ f a = Ok b.
Proof. destruct m as [a | e]; simpl; [eauto | discriminate]. Qed.

Lemma bind_Raise (m : result A) (f : A -> result B) e :
  m = Raise e -> m ≫= f = Raise e.
Proof. intros ->. reflexivity. Qed.

Lemma index_Ok (l : list A) i x : index l i = Ok x <-> l !! i = Some x.
Proof. unfold index. destruct (l !! i); split; congruence. Qed.

Lemma index_lt (l : list A) i : (i < length l)%nat -> exists x, index l i = Ok x.
Proof.
  intros Hi. destruct (lookup_lt_is_Some_2 l i Hi) as [x Hx].
  exists x. apply index_Ok. exact Hx.
Qed.

Lemma index_z_nat (l : list A) (i : nat) x :
  l !! i = Some x -> index_z l (Z.of_nat i) = Ok x.
Proof.
  intros Hx. pose proof (lookup_lt_Some _ _ _ Hx) as Hlt.
  unfold index_z. rewrite decide_True by lia.
  rewrite Nat2Z.id. apply index_Ok. exact Hx.
Qed.

Lemma mapM_Ok_map (f : A -> result B) (g : A -> B) (l : list A) :
  (forall x, x ∈ l -> f x = Ok (g x)) -> mapM f l = Ok (fmap g l).
Proof.
  induction l as [| x l IH]; intros Hf; simpl; [reflexivity |].
  rewrite (Hf x) by left. simpl.
  rewrite IH by (intros y Hy; apply Hf; right; exact Hy). reflexivity.
Qed.

End Results.

Section Reductions.

Lemma first_max_unique l i v i' v' :
  first_max l i v -> first_max l i' v' -> i = i' /\ v = v'.
Proof.
  intros (Hi & Hmax & Hfirst) (Hi' & Hmax' & Hfirst').
  pose proof (Hmax _ _ Hi') as H1. pose proof (Hmax' _ _ Hi) as H2.
  assert (Hv : v = v') by lra. subst v'. split; [| reflexivity].
  destruct (Nat.lt_trichotomy i i') as [Hlt | [Heq | Hlt]]; [| exact Heq |].
  - pose proof (Hfirst' _ _ Hlt Hi). lra.
  - pose proof (Hfirst _ _ Hlt Hi'). lra.
Qed.

Lemma first_max_lt l i v : first_max l i v -> (i < length l)%nat.
Proof. intros (Hi & _). eapply lookup_lt_Some. exact Hi. Qed.

(** The scan extends a first maximum of the prefix already read to one of the
    whole list. *)
Lemma scan_max_spec l : forall pre best_val best_idx,
  first_max pre best_idx best_val ->
  first_max (pre ++ l)
    (snd (scan_max best_val best_idx (length pre) l))
    (fst (scan_max best_val best_idx (length pre) l)).
Proof.
  induction l as [| x l IH]; intros pre bv bi Hpre; simpl.
  - rewrite app_nil_r. exact Hpre.
  - destruct Hpre as (Hi & Hmax & Hfirst).
    pose proof (lookup_lt_Some _ _ _ Hi) as Hbi.
    replace (pre ++ x :: l) with ((pre ++ [x]) ++ l) by (rewrite <- app_assoc; reflexivity).
    replace (S (length pre)) with (length (pre ++ [x])) by (rewrite length_app; simpl; lia).
    destruct (Rlt_dec bv x) as [Hlt | Hge]; apply IH; repeat split.
    + rewrite lookup_app_r by lia. rewrite Nat.sub_diag. reflexivity.
    + intros j y Hj. apply lookup_app_Some in Hj as [Hj | [_ Hj]].
      * pose proof (Hmax _ _ Hj). lra.
      * apply list_lookup_singleton_Some in Hj as [_ <-]. lra.
    + intros j y Hlj Hj. rewrite lookup_app_l in Hj by exact Hlj.
      pose proof (Hmax _ _ Hj). lra.
    + rewrite lookup_app_l by exact Hbi. exact Hi.
    + intros j y Hj. apply lookup_app_Some in Hj as [Hj | [_ Hj]].
      * exact (Hmax _ _ Hj).
      * apply list_lookup_singleton_Some in Hj as [_ <-]. lra.
    + intros j y Hlj Hj. rewrite lookup_app_l in Hj by lia.
      exact (Hfirst _ _ Hlj Hj).
Qed.

Lemma torch_max_spec l :
  l <> [] -> exists v i, torch_max l = Ok (v, i) /\ first_max l i v.
Proof.
  destruct l as [| x l]; [congruence | intros _].
  pose proof (scan_max_spec l [x] x 0%nat) as H. simpl in H.
  destruct (scan_max x 0 1 l) as [v i] eqn:E. exists v, i. split.
  - simpl. rewrite E. reflexivity.
  - apply H. repeat split.
    + intros [| j] y Hj; simpl in Hj; [injection Hj as <-; lra | discriminate].
    + intros j y Hj; lia.
Qed.

Lemma torch_max_Ok l v i : torch_max l = Ok (v, i) -> first_max l i v.
Proof.
  intros H. destruct l as [| x l]; [discriminate |].
  destruct (torch_max_spec (x :: l)) as (v' & i' & H' & Hm); [congruence |].
  rewrite H in H'. injection H' as <- <-. exact Hm.
Qed.

Lemma torch_max_nil : torch_max [] = Raise EmptyReduction.
Proof. reflexivity. Qed.

Lemma torch_argmax_spec l :
  l <> [] -> exists v i, torch_argmax l = Ok i /\ first_max l i v.
Proof.
  intros Hl. destruct (torch_max_spec l Hl) as (v & i & H & Hm).
  exists v, i. split; [| exact Hm]. unfold torch_argmax. rewrite H. reflexivity.
Qed.

Lemma torch_argmax_nil : torch_argmax [] = Raise EmptyReduction.
Proof. reflexivity. Qed.

End Reductions.

(** * The two assignment loops *)

Section Loops.

Lemma bind_Ok_l {A B} (a : A) (f : A -> result B) : Ok a ≫= f = f a.
Proof. reflexivity. Qed.

(** Loop rule: an invariant indexed by the loop counter, kept by every
    iteration, holds at the end, and the loop does not raise. *)
Lemma for_each_seq_inv {St} (body : St -> nat -> result St) (Inv : nat -> St -> Prop) n :
  forall start s,
  Inv start s ->
  (forall i s, (start <= i < start + n)%nat -> Inv i s ->
     exists s', body s i = Ok s' /\ Inv (S i) s') ->
  exists s', for_each body (seq start n) s = Ok s' /\ Inv (start + n)%nat s'.
Proof.
  induction n as [| n IH]; intros start s Hs Hbody; simpl.
  - exists s. rewrite Nat.add_0_r. split; [reflexivity | exact Hs].
  - destruct (Hbody start s) as (s1 & Hs1 & HI1); [lia | exact Hs |].
    rewrite Hs1, bind_Ok_l.
    destruct (IH (S start) s1 HI1) as (s' & Hs' & HI').
    + intros i t Hi. apply Hbody. lia.
    + exists s'. split; [exact Hs' |].
      replace (start + S n)%nat with (S start + n)%nat by lia. exact HI'.
Qed.

Lemma for_range_inv {St} (body : St -> nat -> result St) (Inv : nat -> St -> Prop) n s :
  Inv 0%nat s ->
  (forall i s, (i < n)%nat -> Inv i s -> exists s', body s i = Ok s' /\ Inv (S i) s') ->
  exists s', for_range n body s = Ok s' /\ Inv n s'.
Proof.
  intros H0 Hbody. unfold for_range.
  destruct (for_each_seq_inv body Inv n 0%nat s H0) as (s' & Hs' & HI').
  - intros i t Hi. apply Hbody. lia.
  - exists s'. split; [exact Hs' | exact HI'].
Qed.

Lemma column_iou_table xs ys g y :
  ys !! g = Some y -> column (iou_table xs ys) g = Ok (iou_column xs y).
Proof.
  intros Hy. unfold column, iou_table, iou_column.
  induction xs as [| x xs IH]; simpl; [reflexivity |].
  assert (Hx : index (iou_row x ys) g = Ok (bboxes_iou x y)).
  { apply index_Ok. unfold iou_row. rewrite list_lookup_fmap, Hy. reflexivity. }
  rewrite Hx, bind_Ok_l. unfold fmap in IH. rewrite IH. reflexivity.
Qed.

Lemma index_iou_table xs ys a x :
  xs !! a = Some x -> index (iou_table xs ys) a = Ok (iou_row x ys).
Proof.
  intros Hx. apply index_Ok. unfold iou_table.
  rewrite list_lookup_fmap, Hx. reflexivity.
Qed.

Lemma best_anchor_unique xs y a b :
  best_anchor xs y a -> best_anchor xs y b -> a = b.
Proof. intros [v Hv] [w Hw]. exact (proj1 (first_max_unique _ _ _ _ _ Hv Hw)). Qed.

Lemma best_anchor_lt xs y a : best_anchor xs y a -> (a < length xs)%nat.
Proof.
  intros [v Hv]. apply first_max_lt in Hv.
  unfold iou_column in Hv. rewrite length_fmap in Hv. exact Hv.
Qed.

(** The search of the first loop finds the best anchor of gold object [g]. *)
Lemma pass1_search xs ys g y :
  xs <> [] -> ys !! g = Some y ->
  exists b, column (iou_table xs ys) g = Ok (iou_column xs y) /\
            torch_argmax (iou_column xs y) = Ok b /\ best_anchor xs y b.
Proof.
  intros Hxs Hy. rewrite (column_iou_table xs ys g y Hy).
  destruct (torch_argmax_spec (iou_column xs y)) as (v & b & Hb & Hm).
  - unfold iou_column. destruct xs; [congruence | discriminate].
  - exists b. split; [reflexivity |]. split; [exact Hb | exists v; exact Hm].
Qed.

Lemma pass1_step_state xs ys n s :
  xs <> [] -> (n < length ys)%nat -> pass1_state xs ys n s ->
  exists s', pass1_step (iou_table xs ys) s n = Ok s' /\ pass1_state xs ys (S n) s'.
Proof.
  intros Hxs Hn [Hlen Hinv].
  destruct (lookup_lt_is_Some_2 ys n Hn) as [y Hy].
  destruct (pass1_search xs ys n y Hxs Hy) as (b & Hcol & Hb & Hbest).
  pose proof (best_anchor_lt _ _ _ Hbest) as Hblt.
  destruct (lookup_lt_is_Some_2 s b) as [cur Hcur]; [lia |].
  unfold pass1_step.
  rewrite Hcol, bind_Ok_l, Hb, bind_Ok_l. rewrite (proj2 (index_Ok s b cur) Hcur), bind_Ok_l.
  assert (Hother : forall a, a <> b -> ~ best_anchor xs y a).
  { intros a Hab Ha. apply Hab. exact (best_anchor_unique _ _ _ _ Ha Hbest). }
  assert (Hext : forall a, a <> b ->
            (forall g y', (g < n)%nat -> ys !! g = Some y' -> ~ best_anchor xs y' a) ->
            forall g y', (g < S n)%nat -> ys !! g = Some y' -> ~ best_anchor xs y' a).
  { intros a Hab Hbefore g y' Hg Hy'.
    destruct (decide (g = n)) as [-> | Hgn].
    - rewrite Hy in Hy'. injection Hy' as <-. apply Hother, Hab.
    - apply (Hbefore g); [lia | exact Hy']. }
  destruct (decide (cur = (-1)%Z)) as [-> | Hne].
  - eexists. split; [reflexivity |]. split; [rewrite length_insert; exact Hlen |].
    intros a Ha. destruct (decide (a = b)) as [-> | Hab].
    + right. exists n, y. split; [lia |]. split; [exact Hy |].
      split; [apply list_lookup_insert_eq; lia |]. split; [exact Hbest |].
      destruct (Hinv b Ha) as [[_ Hfree] | (g & y' & _ & _ & Hg & _)].
      * exact Hfree.
      * rewrite Hcur in Hg. injection Hg as Hg. lia.
    + rewrite list_lookup_insert_ne by congruence.
      destruct (Hinv a Ha) as [[Hfree Hnone] | (g & y' & Hg & Hy' & Hassigned)].
      * left. split; [exact Hfree | exact (Hext a Hab Hnone)].
      * right. exists g, y'. split; [lia |]. split; [exact Hy' | exact Hassigned].
  - exists s. split; [reflexivity |]. split; [exact Hlen |].
    intros a Ha. destruct (Hinv a Ha) as [[Hfree Hnone] | (g & y' & Hg & Hy' & Hassigned)].
    + left. split; [exact Hfree |]. apply Hext; [| exact Hnone].
      intros ->. rewrite Hcur in Hfree. congruence.
    + right. exists g, y'. split; [lia |]. split; [exact Hy' | exact Hassigned].
Qed.

Lemma pass1_state_init xs ys : pass1_state xs ys 0 (replicate (length xs) (-1)%Z).
Proof.
  split; [apply length_replicate |].
  intros a Ha. left. split; [apply lookup_replicate_2; exact Ha |].
  intros g y Hg. lia.
Qed.

(** The first loop runs through any number of gold objects when there is an
    anchor, and then every anchor is in the state [pass1_state] describes. *)
Lemma pass1_upto xs ys n :
  xs <> [] -> (n <= length ys)%nat ->
  exists s, pass1 (iou_table xs ys) n (replicate (length xs) (-1)%Z) = Ok s /\
            pass1_state xs ys n s.
Proof.
  intros Hxs Hn. unfold pass1.
  destruct (for_range_inv (pass1_step (iou_table xs ys))
              (fun i s => (i <= n)%nat -> pass1_state xs ys i s) n
              (replicate (length xs) (-1)%Z)) as (s & Hrun & Hs).
  - intros _. apply pass1_state_init.
  - intros i s Hi Hs.
    destruct (pass1_step_state xs ys i s Hxs) as (s' & Hs' & Hst); [lia | apply Hs; lia |].
    exists s'. split; [exact Hs' | intros _; exact Hst].
  - exists s. split; [exact Hrun | apply Hs; lia].
Qed.

(** The whole first loop: it runs to its end when there is an anchor (or no
    gold object). *)
Lemma pass1_post xs ys :
  xs <> [] \/ ys = [] ->
  exists s, pass1 (iou_table xs ys) (length ys) (replicate (length xs) (-1)%Z) = Ok s /\
            pass1_state xs ys (length ys) s.
Proof.
  intros [Hxs | ->].
  - apply pass1_upto; [exact Hxs | lia].
  - eexists. split; [reflexivity | apply pass1_state_init].
Qed.

(** With no anchor and a gold object the first search is over an empty
    column and raises. *)
Lemma pass1_no_anchor y ys :
  pass1 (iou_table [] (y :: ys)) (length (y :: ys)) (replicate 0 (-1)%Z)
  = Raise EmptyReduction.
Proof. reflexivity. Qed.

Lemma best_gold_lt x ys g m : best_gold x ys g m -> (g < length ys)%nat.
Proof.
  intros Hg. apply first_max_lt in Hg.
  unfold iou_row in Hg. rewrite length_fmap in Hg. exact Hg.
Qed.

(** The search of the second loop finds the best gold object of an anchor. *)
Lemma pass2_search x ys :
  ys <> [] -> exists m g, torch_max (iou_row x ys) = Ok (m, g) /\ best_gold x ys g m.
Proof.
  intros Hys. apply torch_max_spec.
  unfold iou_row. destruct ys; [congruence | discriminate].
Qed.

Lemma pass2_step_state xs ys thr before n s :
  ys <> [] -> (n < length xs)%nat -> length before = length xs ->
  pass2_state xs ys thr before n s ->
  exists s', pass2_step (iou_table xs ys) thr s n = Ok s' /\
             pass2_state xs ys thr before (S n) s'.
Proof.
  intros Hys Hn Hbefore (Hlen & Hrest & Hdone).
  destruct (lookup_lt_is_Some_2 xs n Hn) as [x Hx].
  destruct (lookup_lt_is_Some_2 before n) as [cur Hcur]; [lia |].
  assert (Hs : s !! n = Some cur) by (rewrite Hrest by lia; exact Hcur).
  destruct (pass2_search x ys Hys) as (m & g & Hmax & Hbest).
  (* the state after the iteration, whatever it wrote at [n] *)
  assert (Hkeep : forall v, pass2_entry ys thr x cur v ->
            pass2_state xs ys thr before (S n) (<[n := v]> s)).
  { intros v Hv. split; [rewrite length_insert; exact Hlen |]. split.
    - intros a Ha. rewrite list_lookup_insert_ne by lia. apply Hrest. lia.
    - intros a x' cur' Ha Hx' Hcur'. destruct (decide (a = n)) as [-> | Han].
      + rewrite Hx in Hx'. injection Hx' as <-.
        rewrite Hcur in Hcur'. injection Hcur' as <-.
        exists v. split; [apply list_lookup_insert_eq; lia | exact Hv].
      + rewrite list_lookup_insert_ne by congruence.
        apply (Hdone a x' cur'); [lia | exact Hx' | exact Hcur']. }
  unfold pass2_step. rewrite (proj2 (index_Ok s n cur) Hs), bind_Ok_l.
  destruct (decide (cur = (-1)%Z)) as [Hfree | Hheld].
  - rewrite (index_iou_table xs ys n x Hx), bind_Ok_l, Hmax, bind_Ok_l. simpl.
    destruct (Rge_dec m thr) as [Hge | Hlt].
    + eexists. split; [reflexivity |]. apply Hkeep. split; [congruence |].
      intros _. exists g, m. split; [exact Hbest |]. split; [reflexivity | lra].
    + exists s. split; [reflexivity |].
      rewrite <- (list_insert_id s n cur Hs). apply Hkeep. split; [congruence |].
      intros _. exists g, m. split; [exact Hbest |]. split; [lra | intros _; exact Hfree].
  - exists s. split; [reflexivity |].
    rewrite <- (list_insert_id s n cur Hs). apply Hkeep. split; [reflexivity | congruence].
Qed.

Lemma pass2_state_init xs ys thr before :
  length before = length xs -> pass2_state xs ys thr before 0 before.
Proof.
  intros Hlen. split; [exact Hlen |]. split; [reflexivity |].
  intros a x cur Ha. lia.
Qed.

(** The second loop runs to its end when there is a gold object (or no
    anchor), and then every anchor is in the state [pass2_state] describes. *)
Lemma pass2_post xs ys thr before :
  ys <> [] \/ xs = [] -> length before = length xs ->
  exists s, pass2 (iou_table xs ys) thr (length xs) before = Ok s /\
            pass2_state xs ys thr before (length xs) s.
Proof.
  intros Hne Hlen. unfold pass2.
  apply for_range_inv; [apply pass2_state_init; exact Hlen |].
  intros i s Hi Hs. destruct Hne as [Hys | ->]; [| simpl in Hi; lia].
  apply pass2_step_state; assumption.
Qed.

(** Who holds the best anchor of a processed gold object, and who can hold
    an anchor at all. *)
Lemma pass1_state_holder xs ys n s g y a :
  pass1_state xs ys n s -> (g < n)%nat -> ys !! g = Some y -> best_anchor xs y a ->
  s !! a = Some (Z.of_nat g) <->
  (forall g' y', (g' < g)%nat -> ys !! g' = Some y' -> ~ best_anchor xs y' a).
Proof.
  intros [Hlen Hinv] Hg Hy Hbest.
  pose proof (best_anchor_lt _ _ _ Hbest) as Ha.
  destruct (Hinv a Ha) as [[_ Hnone] | (g0 & y0 & Hg0 & Hy0 & Hs & Hbest0 & Hmin)].
  - exfalso. exact (Hnone g y Hg Hy Hbest).
  - rewrite Hs. split.
    + intros Heq. injection Heq as Heq. apply Nat2Z.inj in Heq. subst g0. exact Hmin.
    + intros Hfirst. destruct (Nat.lt_trichotomy g0 g) as [Hlt | [-> | Hlt]].
      * exfalso. exact (Hfirst g0 y0 Hlt Hy0 Hbest0).
      * reflexivity.
      * exfalso. exact (Hmin g y Hlt Hy Hbest).
Qed.

Lemma pass1_state_held xs ys n s b g :
  pass1_state xs ys n s -> s !! b = Some (Z.of_nat g) ->
  exists y, (g < n)%nat /\ ys !! g = Some y /\ best_anchor xs y b.
Proof.
  intros [Hlen Hinv] Hs.
  assert (Hb : (b < length xs)%nat) by (rewrite <- Hlen; eapply lookup_lt_Some; exact Hs).
  destruct (Hinv b Hb) as [[Hfree _] | (g0 & y0 & Hg0 & Hy0 & Hs0 & Hbest0 & _)].
  - rewrite Hs in Hfree. injection Hfree as Hfree. lia.
  - rewrite Hs in Hs0. injection Hs0 as Heq. apply Nat2Z.inj in Heq. subst g0.
    exists y0. split; [exact Hg0 |]. split; [exact Hy0 | exact Hbest0].
Qed.

Lemma pass1_state_free xs ys n s a :
  pass1_state xs ys n s -> (a < length xs)%nat ->
  s !! a = Some (-1)%Z <->
  (forall g y, (g < n)%nat -> ys !! g = Some y -> ~ best_anchor xs y a).
Proof.
  intros [Hlen Hinv] Ha.
  destruct (Hinv a Ha) as [[Hfree Hnone] | (g0 & y0 & Hg0 & Hy0 & Hs0 & Hbest0 & _)].
  - split; [intros _; exact Hnone | intros _; exact Hfree].
  - split.
    + intros Hfree. rewrite Hs0 in Hfree. injection Hfree as Hfree. lia.
    + intros Hnone. exfalso. exact (Hnone g0 y0 Hg0 Hy0 Hbest0).
Qed.

Lemma pass1_state_entries xs ys n s :
  pass1_state xs ys n s -> Forall (assignment_entry n) s.
Proof.
  intros [Hlen Hinv]. apply Forall_lookup. intros a v Hv.
  assert (Ha : (a < length xs)%nat) by (rewrite <- Hlen; eapply lookup_lt_Some; exact Hv).
  destruct (Hinv a Ha) as [[Hfree _] | (g0 & y0 & Hg0 & _ & Hs0 & _)].
  - left. congruence.
  - right. rewrite Hv in Hs0. injection Hs0 as ->. lia.
Qed.

End Loops.

(** * Tensors, masks and gathers *)

Section Tensors.

Lemma boxes_of_ok t :
  (4 <= last_dim t)%nat -> boxes_of t = Ok (row_box <$> rows t).
Proof.
  intros Hd. unfold boxes_of, coordinate, TOP, LEFT, BOTTOM, RIGHT.
  rewrite !decide_True by lia. reflexivity.
Qed.

Lemma boxes_of_short t :
  (last_dim t < 4)%nat -> boxes_of t = Raise IndexError.
Proof.
  intros Hd. unfold boxes_of, coordinate, TOP, LEFT, BOTTOM, RIGHT.
  destruct (decide (0 < last_dim t)%nat); [rewrite bind_Ok_l | reflexivity].
  destruct (decide (1 < last_dim t)%nat); [rewrite bind_Ok_l | reflexivity].
  destruct (decide (2 < last_dim t)%nat); [rewrite bind_Ok_l | reflexivity].
  rewrite decide_False by lia. reflexivity.
Qed.

Lemma boxes_of_Ok t xs :
  boxes_of t = Ok xs -> (4 <= last_dim t)%nat /\ xs = row_box <$> rows t.
Proof.
  intros H. destruct (decide (last_dim t < 4)%nat) as [Hd | Hd].
  - rewrite (boxes_of_short t Hd) in H. discriminate.
  - rewrite (boxes_of_ok t) in H by lia. injection H as <-. split; [lia | reflexivity].
Qed.

Lemma boxes_of_length t xs : boxes_of t = Ok xs -> length xs = length (rows t).
Proof. intros H. apply boxes_of_Ok in H as [_ ->]. apply length_fmap. Qed.

Lemma masked_select_fmap {A B} (f : A -> B) (l : list A) : forall mask,
  masked_select (f <$> l) mask = f <$> masked_select l mask.
Proof.
  induction l as [| x l IH]; intros [| [] mask]; simpl; try reflexivity.
  - rewrite IH. reflexivity.
  - apply IH.
Qed.

Lemma masked_select_zip_with {A B C} (f : A -> B -> C) (l : list A) : forall (k : list B) mask,
  zip_with f (masked_select l mask) (masked_select k mask)
  = masked_select (zip_with f l k) mask.
Proof.
  induction l as [| x l IH]; intros [| y k] [| [] mask]; simpl;
    rewrite ?IH; try reflexivity;
    destruct (masked_select l mask); reflexivity.
Qed.

(** Every selected entry is an entry whose mask bit is set. *)
Lemma masked_select_test {A} (p : A -> bool) (l : list A) x :
  x ∈ masked_select l (p <$> l) -> p x = true.
Proof.
  induction l as [| y l IH]; simpl; [intros H; inversion H |].
  destruct (p y) eqn:E; [| exact IH].
  intros H. apply elem_of_cons in H as [-> | H]; [exact E | exact (IH H)].
Qed.

Lemma masked_select_elem {A} (l : list A) x : forall mask,
  x ∈ masked_select l mask -> x ∈ l.
Proof.
  induction l as [| y l IH]; intros [| [] mask]; simpl; intros H; try (inversion H; fail).
  - apply elem_of_cons in H as [-> | H]; [left | right; exact (IH _ H)].
  - right. exact (IH _ H).
Qed.

Lemma masked_assign_length {A} (dst : list A) : forall mask vals,
  length (masked_assign dst mask vals) = length dst.
Proof.
  induction dst as [| d dst IH]; intros [| [] mask] vals; simpl; try reflexivity.
  - destruct vals; simpl; rewrite IH; reflexivity.
  - rewrite IH. reflexivity.
Qed.

(** Writing back through a mask what was selected by the same mask: position
    by position, the entry of the source where the bit is set, the old
    content elsewhere. *)
Lemma masked_assign_lookup {A} (dst : list A) :
  forall (mask : list bool) (l : list A) (a : nat) (d : A) (m : bool) (x : A),
  dst !! a = Some d -> mask !! a = Some m -> l !! a = Some x ->
  masked_assign dst mask (masked_select l mask) !! a = Some (if m then x else d).
Proof.
  induction dst as [| d0 dst IH]; intros mask l a d m x Hd Hm Hx; [discriminate |].
  destruct mask as [| m0 mask]; [discriminate |].
  destruct l as [| x0 l]; [discriminate |].
  destruct a as [| a]; simpl in Hd, Hm, Hx.
  - injection Hd as <-. injection Hm as <-. injection Hx as <-.
    destruct m0; reflexivity.
  - destruct m0; simpl; apply IH; assumption.
Qed.

Lemma any_false_lookup (mask : list bool) (a : nat) m : any mask = false -> mask !! a = Some m -> m = false.
Proof.
  unfold any. revert a. induction mask as [| b mask IH]; intros a H Ha; [discriminate |].
  simpl in H. apply orb_false_iff in H as [Hb Hrest].
  destruct a as [| a]; simpl in Ha; [congruence | exact (IH a Hrest Ha)].
Qed.

Lemma gather_in_range {A} (src : list A) (d : A) (idx : list Z) :
  (forall v, v ∈ idx -> (0 <= v < Z.of_nat (length src))%Z) ->
  gather src idx = Ok ((fun v => default d (src !! Z.to_nat v)) <$> idx).
Proof.
  intros Hidx. unfold gather. apply mapM_Ok_map. intros v Hv.
  pose proof (Hidx v Hv) as Hr.
  destruct (lookup_lt_is_Some_2 src (Z.to_nat v)) as [x Hx]; [lia |].
  rewrite Hx. simpl. rewrite <- (Z2Nat.id v) at 1 by lia.
  apply index_z_nat. exact Hx.
Qed.

(** In range and without overflow the tensor addition is the integer one. *)
Lemma add64_exact c : (- 2 ^ 63 <= 1 + c < 2 ^ 63)%Z -> add64 1 c = (1 + c)%Z.
Proof.
  intros Hc. unfold add64, wrap64.
  rewrite Z.mod_small by lia. lia.
Qed.

(** Position by position, what the code after the loops writes. *)
Lemma materialize_spec anchors gold_classes gold_bboxes assigned xs ys :
  boxes_of anchors = Ok xs -> boxes_of gold_bboxes = Ok ys ->
  length gold_classes = length ys ->
  length assigned = length xs ->
  Forall (assignment_entry (length ys)) assigned ->
  exists classes rcnns,
    materialize anchors gold_classes gold_bboxes assigned = Ok (classes, rcnns) /\
    length classes = length xs /\ length rcnns = length xs /\
    forall (a : nat) x v, xs !! a = Some x -> assigned !! a = Some v ->
      (v = (-1)%Z -> classes !! a = Some 0%Z /\ rcnns !! a = Some zero_rcnn) /\
      (forall (g : nat) c y, v = Z.of_nat g ->
         gold_classes !! g = Some c -> ys !! g = Some y ->
         classes !! a = Some (add64 1 c) /\ rcnns !! a = Some (bboxes_to_rcnn x y)).
Proof.
  intros Hxs Hys Hgc Hlen Hentries.
  apply boxes_of_Ok in Hxs as [Hda Hxs]. apply boxes_of_Ok in Hys as [Hdg Hys].
  assert (Hrows : length (rows anchors) = length xs) by (subst xs; rewrite length_fmap; reflexivity).
  assert (Hgrows : length (rows gold_bboxes) = length ys) by (subst ys; rewrite length_fmap; reflexivity).
  unfold materialize.
  set (mask := (fun v : Z => bool_decide (v <> (-1)%Z)) <$> assigned).
  assert (Hmask : forall (a : nat) v, assigned !! a = Some v ->
            mask !! a = Some (bool_decide (v <> (-1)%Z))).
  { intros a v Hv. unfold mask. rewrite list_lookup_fmap, Hv. reflexivity. }
  destruct (any mask) eqn:Hany.
  - set (idx := masked_select assigned mask).
    assert (Hidx : forall v, v ∈ idx -> (0 <= v < Z.of_nat (length ys))%Z).
    { intros v Hv. pose proof (masked_select_test _ _ _ Hv) as Hbit.
      apply bool_decide_eq_true in Hbit.
      apply masked_select_elem in Hv.
      destruct (proj1 (list.Forall_forall _ _) Hentries v Hv) as [-> | Hr]; [congruence | exact Hr]. }
    rewrite (gather_in_range gold_classes 0%Z idx) by (rewrite Hgc; exact Hidx).
    rewrite bind_Ok_l.
    rewrite (gather_in_range (rows gold_bboxes) [] idx) by (rewrite Hgrows; exact Hidx).
    rewrite bind_Ok_l. unfold bboxes_to_rcnn_rows.
    rewrite !boxes_of_ok by (simpl; assumption). rewrite !bind_Ok_l. simpl rows.
    eexists. eexists. split; [reflexivity |].
    rewrite !masked_assign_length, !length_replicate.
    split; [exact Hrows |]. split; [exact Hrows |].
    intros a x v Hx Hv.
    pose proof (lookup_lt_Some _ _ _ Hx) as Ha.
    unfold idx. rewrite <- !list_fmap_compose, <- !masked_select_fmap.
    rewrite masked_select_zip_with.
    erewrite (masked_assign_lookup (replicate _ 0%Z));
      [| apply lookup_replicate_2; lia | apply Hmask; exact Hv
       | rewrite list_lookup_fmap, Hv; reflexivity].
    erewrite (masked_assign_lookup (replicate _ zero_rcnn));
      [| apply lookup_replicate_2; lia | apply Hmask; exact Hv
       | rewrite lookup_zip_with, list_lookup_fmap, <- Hxs, Hx, Hv; reflexivity].
    split.
    + intros ->. rewrite bool_decide_eq_false_2 by congruence. split; reflexivity.
    + intros g c y -> Hc Hy. rewrite bool_decide_eq_true_2 by lia.
      simpl. rewrite Nat2Z.id, Hc. simpl.
      rewrite Hys, list_lookup_fmap in Hy.
      destruct (rows gold_bboxes !! g) as [r |]; [| discriminate].
      simpl in Hy. injection Hy as <-. split; reflexivity.
  - exists (replicate (length (rows anchors)) 0%Z), (replicate (length (rows anchors)) zero_rcnn).
    split; [reflexivity |]. rewrite !length_replicate.
    split; [exact Hrows |]. split; [exact Hrows |].
    intros a x v Hx Hv.
    pose proof (lookup_lt_Some _ _ _ Hx) as Ha.
    pose proof (any_false_lookup _ _ _ Hany (Hmask _ _ Hv)) as Hbit.
    apply bool_decide_eq_false in Hbit.
    assert (Hfree : v = (-1)%Z) by (destruct (decide (v = (-1)%Z)); [assumption | contradiction]).
    split.
    + intros _. split; apply lookup_replicate_2; lia.
    + intros g c y Hg. lia.
Qed.

End Tensors.

(** * The first loop: one anchor for a gold object *)

Section Pass1.

(** C2. Pass 1: the gold objects are taken in ascending index order; the
    anchor with maximum IoU against gold object [g] (the smallest such anchor
    index) is assigned to [g] if and only if it is still free ([-1]) in the
    state the loop has reached when it comes to [g], that is, if and only if
    no gold object of smaller index has that same anchor as its best anchor;
    no other anchor is assigned to [g] by this loop; when two gold objects
    have the same best anchor, the one of larger index does not get it; and
    an anchor stays free exactly when it is the best anchor of no gold
    object. *)
Theorem pass1_assigns_best_anchor_if_free (xs ys : list Box) :
  xs <> [] ->
  exists assigned : list Z,
    pass1 (iou_table xs ys) (length ys) (replicate (length xs) (-1)%Z) = Ok assigned /\
    length assigned = length xs /\
    (forall g y, ys !! g = Some y ->
       exists (a : nat) (reached : list Z),
         best_anchor xs y a /\
         pass1 (iou_table xs ys) g (replicate (length xs) (-1)%Z) = Ok reached /\
         (assigned !! a = Some (Z.of_nat g) <-> reached !! a = Some (-1)%Z) /\
         (reached !! a = Some (-1)%Z <->
          forall g' y', (g' < g)%nat -> ys !! g' = Some y' -> ~ best_anchor xs y' a) /\
         (forall b : nat, assigned !! b = Some (Z.of_nat g) -> b = a)) /\
    (forall g1 g2 y1 y2 a, (g1 < g2)%nat ->
       ys !! g1 = Some y1 -> ys !! g2 = Some y2 ->
       best_anchor xs y1 a -> best_anchor xs y2 a ->
       assigned !! a <> Some (Z.of_nat g2)) /\
    (forall a, (a < length xs)%nat ->
       assigned !! a = Some (-1)%Z <->
       forall g y, ys !! g = Some y -> ~ best_anchor xs y a).
Proof.
  intros Hxs.
  destruct (pass1_post xs ys (or_introl Hxs)) as (s & Hrun & Hstate).
  exists s. split; [exact Hrun |]. split; [exact (proj1 Hstate) |].
  split; [| split].
  - intros g y Hy.
    pose proof (lookup_lt_Some _ _ _ Hy) as Hg.
    destruct (pass1_search xs ys g y Hxs Hy) as (a & _ & _ & Hbest).
    destruct (pass1_upto xs ys g Hxs) as (reached & Hreached & Hrstate); [lia |].
    pose proof (pass1_state_free _ _ _ _ a Hrstate (best_anchor_lt _ _ _ Hbest)) as Hfree.
    pose proof (pass1_state_holder _ _ _ _ _ _ _ Hstate Hg Hy Hbest) as Hholder.
    exists a, reached. split; [exact Hbest |]. split; [exact Hreached |].
    split; [| split].
    + rewrite Hholder, Hfree. reflexivity.
    + exact Hfree.
    + intros b Hb.
      destruct (pass1_state_held _ _ _ _ _ _ Hstate Hb) as (y' & _ & Hy' & Hbest').
      rewrite Hy in Hy'. injection Hy' as <-.
      exact (best_anchor_unique _ _ _ _ Hbest' Hbest).
  - intros g1 g2 y1 y2 a Hlt Hy1 Hy2 Hb1 Hb2 Hs.
    pose proof (lookup_lt_Some _ _ _ Hy2) as Hg2.
    pose proof (proj1 (pass1_state_holder _ _ _ _ _ _ _ Hstate Hg2 Hy2 Hb2) Hs) as Hfirst.
    exact (Hfirst g1 y1 Hlt Hy1 Hb1).
  - intros a Ha. rewrite (pass1_state_free _ _ _ _ _ Hstate Ha). split.
    + intros H g y Hy. apply (H g y); [eapply lookup_lt_Some; exact Hy | exact Hy].
    + intros H g y _ Hy. exact (H g y Hy).
Qed.

Lemma pass1_assigns_best_anchor_if_free_witness :
  exists assigned : list Z,
    pass1 (iou_table grid_anchors contested_golds) 2
      (replicate 4 (-1)%Z) = Ok assigned /\
    length assigned = 4%nat.
Proof.
  destruct (pass1_assigns_best_anchor_if_free grid_anchors contested_golds)
    as (assigned & Hrun & Hlen & _).
  - discriminate.
  - exists assigned. split; [exact Hrun | exact Hlen].
Defined.

(** C6 (as amended). Two gold objects with the same best anchor: Pass 1
    assigns that anchor to the one of smaller index (provided no gold object
    before it has the same best anchor), and the one of larger index receives
    no anchor at all in Pass 1. *)
Theorem contested_anchor_goes_to_earlier_gold (xs ys : list Box) g1 g2 y1 y2 a :
  (g1 < g2)%nat ->
  ys !! g1 = Some y1 -> ys !! g2 = Some y2 ->
  best_anchor xs y1 a -> best_anchor xs y2 a ->
  (forall g y, (g < g1)%nat -> ys !! g = Some y -> ~ best_anchor xs y a) ->
  exists assigned : list Z,
    pass1 (iou_table xs ys) (length ys) (replicate (length xs) (-1)%Z) = Ok assigned /\
    assigned !! a = Some (Z.of_nat g1) /\
    forall b : nat, assigned !! b <> Some (Z.of_nat g2).
Proof.
  intros Hlt Hy1 Hy2 Hb1 Hb2 Hfirst.
  assert (Hxs : xs <> []).
  { intros ->. apply best_anchor_lt in Hb1. simpl in Hb1. lia. }
  destruct (pass1_post xs ys (or_introl Hxs)) as (s & Hrun & Hstate).
  pose proof (lookup_lt_Some _ _ _ Hy1) as Hg1.
  pose proof (lookup_lt_Some _ _ _ Hy2) as Hg2.
  exists s. split; [exact Hrun |]. split.
  - apply (pass1_state_holder _ _ _ _ _ _ _ Hstate Hg1 Hy1 Hb1). exact Hfirst.
  - intros b Hb.
    destruct (pass1_state_held _ _ _ _ _ _ Hstate Hb) as (y & _ & Hy & Hbest).
    rewrite Hy2 in Hy. injection Hy as <-.
    pose proof (best_anchor_unique _ _ _ _ Hbest Hb2) as ->.
    pose proof (proj1 (pass1_state_holder _ _ _ _ _ _ _ Hstate Hg2 Hy2 Hb2) Hb) as Hnone.
    exact (Hnone g1 y1 Hlt Hy1 Hb1).
Qed.

Lemma contested_iou_table :
  iou_table grid_anchors contested_golds
  = [[1 / 2; 1 / 2]; [0; 1 / 8]; [0; 0]; [0; 0]].
Proof.
  unfold iou_table, iou_row, grid_anchors, contested_golds.
  rewrite !fmap_cons, !fmap_nil.
  repeat f_equal; iou_eval.
Qed.

Lemma contested_best_anchor_0 : best_anchor grid_anchors (mkBox 0 0 10 5) 0.
Proof.
  exists (1 / 2). apply torch_max_Ok.
  replace (iou_column grid_anchors (mkBox 0 0 10 5)) with [1 / 2; 0; 0; 0].
  - unfold torch_max. simpl. real_tests. reflexivity.
  - unfold iou_column, grid_anchors. rewrite !fmap_cons, !fmap_nil.
    repeat f_equal; symmetry; iou_eval.
Qed.

Lemma contested_best_anchor_1 : best_anchor grid_anchors (mkBox 0 4 10 12) 0.
Proof.
  exists (1 / 2). apply torch_max_Ok.
  replace (iou_column grid_anchors (mkBox 0 4 10 12)) with [1 / 2; 1 / 8; 0; 0].
  - unfold torch_max. simpl. real_tests. reflexivity.
  - unfold iou_column, grid_anchors. rewrite !fmap_cons, !fmap_nil.
    repeat f_equal; symmetry; iou_eval.
Qed.

Lemma contested_pass1 :
  pass1 (iou_table grid_anchors contested_golds) 2 (replicate 4 (-1)%Z)
  = Ok [0; -1; -1; -1]%Z.
Proof.
  rewrite contested_iou_table.
  unfold pass1, for_range. simpl seq.
  unfold for_each, pass1_step, column, torch_argmax, torch_max. simpl.
  real_tests. simpl. real_tests. reflexivity.
Qed.

Lemma contested_anchor_goes_to_earlier_gold_witness :
  exists assigned : list Z,
    pass1 (iou_table grid_anchors contested_golds) 2 (replicate 4 (-1)%Z) = Ok assigned /\
    assigned !! 0%nat = Some 0%Z /\
    forall b : nat, assigned !! b <> Some 1%Z.
Proof.
  apply (contested_anchor_goes_to_earlier_gold grid_anchors contested_golds
           0 1 (mkBox 0 0 10 5) (mkBox 0 4 10 12) 0).
  - lia.
  - reflexivity.
  - reflexivity.
  - exact contested_best_anchor_0.
  - exact contested_best_anchor_1.
  - intros g y Hg. lia.
Defined.

(** C6 (as stated) fails.  On the grid of four anchors the two gold boxes of
    [contested_golds] both have anchor 0 as best anchor, with the same IoU
    1/2; the later one overlaps the free anchor 1 with IoU 1/8; Pass 1 gives
    anchor 0 to the earlier gold object and leaves every other anchor free,
    so the later gold object is assigned to no anchor by Pass 1. *)
Lemma contested_anchor_counterexample :
  best_anchor grid_anchors (mkBox 0 0 10 5) 0 /\
  best_anchor grid_anchors (mkBox 0 4 10 12) 0 /\
  bboxes_iou (mkBox 0 0 10 10) (mkBox 0 0 10 5) = 1 / 2 /\
  bboxes_iou (mkBox 0 0 10 10) (mkBox 0 4 10 12) = 1 / 2 /\
  bboxes_iou (mkBox 0 10 10 20) (mkBox 0 4 10 12) = 1 / 8 /\
  pass1 (iou_table grid_anchors contested_golds) 2 (replicate 4 (-1)%Z)
  = Ok [0; -1; -1; -1]%Z /\
  ~ (exists assigned (b : nat),
       pass1 (iou_table grid_anchors contested_golds) 2 (replicate 4 (-1)%Z)
       = Ok assigned /\ assigned !! b = Some 1%Z).
Proof.
  split; [exact contested_best_anchor_0 |].
  split; [exact contested_best_anchor_1 |].
  split; [iou_eval |]. split; [iou_eval |]. split; [iou_eval |].
  split; [exact contested_pass1 |].
  intros (assigned & b & Hrun & Hb).
  rewrite contested_pass1 in Hrun. injection Hrun as <-.
  destruct b as [| [| [| [| b]]]]; simpl in Hb; discriminate.
Qed.

End Pass1.

(** * The second loop: anchors above the threshold *)

Section Pass2.

(** C3. Pass 2: an anchor that Pass 1 left free is assigned to the gold
    object with maximum IoU against it (the smallest such gold index) if and
    only if that maximum is [>= iou_threshold], and stays background (-1)
    if and only if the maximum is below the threshold; an anchor that Pass 1
    assigned keeps its gold object. *)
Theorem pass2_assigns_free_anchors_by_threshold (xs ys : list Box)
    (iou_threshold : R) (before : list Z) :
  ys <> [] -> length before = length xs ->
  exists assigned : list Z,
    pass2 (iou_table xs ys) iou_threshold (length xs) before = Ok assigned /\
    length assigned = length xs /\
    forall (a : nat) x cur, xs !! a = Some x -> before !! a = Some cur ->
      (cur <> (-1)%Z -> assigned !! a = Some cur) /\
      (cur = (-1)%Z ->
       exists g m, best_gold x ys g m /\
         (iou_threshold <= m <-> assigned !! a = Some (Z.of_nat g)) /\
         (m < iou_threshold <-> assigned !! a = Some (-1)%Z)).
Proof.
  intros Hys Hlen.
  destruct (pass2_post xs ys iou_threshold before (or_introl Hys) Hlen)
    as (s & Hrun & Hslen & _ & Hdone).
  exists s. split; [exact Hrun |]. split; [exact Hslen |].
  intros a x cur Hx Hcur.
  pose proof (lookup_lt_Some _ _ _ Hx) as Ha.
  destruct (Hdone a x cur Ha Hx Hcur) as (v & Hv & Hheld & Hfree).
  split.
  - intros Hne. rewrite Hv, (Hheld Hne). reflexivity.
  - intros Hcur1. destruct (Hfree Hcur1) as (g & m & Hbest & Hge & Hlt).
    exists g, m. split; [exact Hbest |]. rewrite Hv. split; split.
    + intros H. rewrite (Hge H). reflexivity.
    + intros H. injection H as H. destruct (Rle_lt_dec iou_threshold m) as [Hle | Hgt];
        [exact Hle | rewrite (Hlt Hgt) in H; lia].
    + intros H. rewrite (Hlt H). reflexivity.
    + intros H. injection H as H. destruct (Rle_lt_dec iou_threshold m) as [Hle | Hgt];
        [rewrite (Hge Hle) in H; lia | exact Hgt].
Qed.

Lemma pass2_assigns_free_anchors_by_threshold_witness :
  exists assigned : list Z,
    pass2 (iou_table grid_anchors contested_golds) (1 / 8) 4 [0; -1; -1; -1]%Z
    = Ok assigned /\
    length assigned = 4%nat.
Proof.
  destruct (pass2_assigns_free_anchors_by_threshold grid_anchors contested_golds
              (1 / 8) [0; -1; -1; -1]%Z) as (assigned & Hrun & Hlen & _).
  - discriminate.
  - reflexivity.
  - exists assigned. split; [exact Hrun | exact Hlen].
Defined.

End Pass2.

(** * The whole of [bboxes_training] *)

Section Training.

(** Once the coordinate reads have succeeded the assignment is the two loops
    over the IoU matrix of the boxes read. *)
Lemma assign_anchors_boxes anchors gold_bboxes thr xs ys :
  boxes_of anchors = Ok xs -> boxes_of gold_bboxes = Ok ys ->
  assign_anchors anchors gold_bboxes thr
  = pass1 (iou_table xs ys) (length ys) (replicate (length xs) (-1)%Z)
      ≫= pass2 (iou_table xs ys) thr (length xs).
Proof.
  intros Hxs Hys. unfold assign_anchors, iou_matrix.
  rewrite Hxs, Hys, !bind_Ok_l.
  rewrite <- (boxes_of_length _ _ Hxs), <- (boxes_of_length _ _ Hys). reflexivity.
Qed.

(** A coordinate read out of range stops the call in the IoU computation. *)
Lemma iou_matrix_short anchors gold_bboxes :
  (last_dim anchors < 4)%nat \/ (last_dim gold_bboxes < 4)%nat ->
  iou_matrix anchors gold_bboxes = Raise IndexError.
Proof.
  intros Hd. unfold iou_matrix.
  destruct (decide (last_dim anchors < 4)%nat) as [Ha | Ha].
  - rewrite (boxes_of_short _ Ha). reflexivity.
  - rewrite (boxes_of_ok anchors) by lia. rewrite bind_Ok_l.
    rewrite (boxes_of_short gold_bboxes) by (destruct Hd; [contradiction | assumption]).
    reflexivity.
Qed.

(** With an anchor and no gold object the second loop takes the maximum of
    an empty row at its first iteration. *)
Lemma pass2_no_gold x xs thr :
  pass2 (iou_table (x :: xs) []) thr (length (x :: xs))
    (replicate (length (x :: xs)) (-1)%Z)
  = Raise EmptyReduction.
Proof. reflexivity. Qed.

Lemma assign_anchors_no_gold anchors gold_bboxes thr x xs :
  boxes_of anchors = Ok (x :: xs) -> boxes_of gold_bboxes = Ok [] ->
  assign_anchors anchors gold_bboxes thr = Raise EmptyReduction.
Proof.
  intros Hxs Hys. rewrite (assign_anchors_boxes _ _ _ _ _ Hxs Hys).
  change (pass1 (iou_table (x :: xs) []) (length []) (replicate (length (x :: xs)) (-1)%Z))
    with (Ok (replicate (length (x :: xs)) (-1)%Z) : result (list Z)).
  rewrite bind_Ok_l. apply pass2_no_gold.
Qed.

Lemma assign_anchors_no_anchor anchors gold_bboxes thr y ys :
  boxes_of anchors = Ok [] -> boxes_of gold_bboxes = Ok (y :: ys) ->
  assign_anchors anchors gold_bboxes thr = Raise EmptyReduction.
Proof.
  intros Hxs Hys. rewrite (assign_anchors_boxes _ _ _ _ _ Hxs Hys).
  change (length []) with 0%nat. rewrite pass1_no_anchor. reflexivity.
Qed.

(** With an anchor and a gold object both loops run to their ends. *)
Lemma assign_anchors_spec anchors gold_bboxes thr xs ys :
  boxes_of anchors = Ok xs -> boxes_of gold_bboxes = Ok ys ->
  xs <> [] -> ys <> [] ->
  exists s1 s2,
    pass1 (iou_table xs ys) (length ys) (replicate (length xs) (-1)%Z) = Ok s1 /\
    pass1_state xs ys (length ys) s1 /\
    assign_anchors anchors gold_bboxes thr = Ok s2 /\
    pass2_state xs ys thr s1 (length xs) s2.
Proof.
  intros Hxs Hys Hx Hy.
  destruct (pass1_post xs ys (or_introl Hx)) as (s1 & Hrun1 & Hs1).
  destruct (pass2_post xs ys thr s1 (or_introl Hy) (proj1 Hs1)) as (s2 & Hrun2 & Hs2).
  exists s1, s2. split; [exact Hrun1 |]. split; [exact Hs1 |]. split; [| exact Hs2].
  rewrite (assign_anchors_boxes _ _ _ _ _ Hxs Hys), Hrun1, bind_Ok_l. exact Hrun2.
Qed.

Lemma pass2_state_entries xs ys thr s1 s2 :
  Forall (assignment_entry (length ys)) s1 ->
  length s1 = length xs ->
  pass2_state xs ys thr s1 (length xs) s2 ->
  Forall (assignment_entry (length ys)) s2.
Proof.
  intros Hs1 Hlen1 (Hlen & _ & Hdone). apply Forall_lookup. intros a v Hv.
  assert (Ha : (a < length xs)%nat) by (rewrite <- Hlen; eapply lookup_lt_Some; exact Hv).
  destruct (lookup_lt_is_Some_2 xs a Ha) as [x Hx].
  destruct (lookup_lt_is_Some_2 s1 a) as [cur Hcur]; [lia |].
  destruct (Hdone a x cur Ha Hx Hcur) as (v' & Hv' & Hheld & Hfree).
  rewrite Hv in Hv'. injection Hv' as <-.
  destruct (decide (cur = (-1)%Z)) as [Hc | Hc].
  - destruct (Hfree Hc) as (g & m & Hbest & Hge & Hlt).
    pose proof (best_gold_lt _ _ _ _ Hbest) as Hg.
    destruct (Rle_lt_dec thr m) as [Hle | Hgt].
    + right. rewrite (Hge Hle). lia.
    + left. exact (Hlt Hgt).
  - rewrite (Hheld Hc). exact (proj1 (Forall_lookup _ _) Hs1 a cur Hcur).
Qed.

(** Whenever the loops return, [assigned_gold] has one entry per anchor,
    each the sentinel or a gold index. *)
Lemma assign_anchors_Ok anchors gold_bboxes thr xs ys s :
  boxes_of anchors = Ok xs -> boxes_of gold_bboxes = Ok ys ->
  assign_anchors anchors gold_bboxes thr = Ok s ->
  length s = length xs /\ Forall (assignment_entry (length ys)) s.
Proof.
  intros Hxs Hys Hrun. destruct xs as [| x xs], ys as [| y ys].
  - rewrite (assign_anchors_boxes _ _ _ _ _ Hxs Hys) in Hrun.
    injection Hrun as <-. split; [reflexivity | constructor].
  - rewrite (assign_anchors_no_anchor _ _ _ _ _ Hxs Hys) in Hrun. discriminate.
  - rewrite (assign_anchors_no_gold _ _ _ _ _ Hxs Hys) in Hrun. discriminate.
  - destruct (assign_anchors_spec _ _ thr _ _ Hxs Hys) as (s1 & s2 & _ & Hs1 & Hrun2 & Hs2);
      [discriminate | discriminate |].
    rewrite Hrun in Hrun2. injection Hrun2 as <-.
    split; [exact (proj1 Hs2) |].
    apply (pass2_state_entries _ _ _ _ _ (pass1_state_entries _ _ _ _ Hs1) (proj1 Hs1) Hs2).
Qed.

(** The call returns whenever the loops do and the class tensor has one entry
    per gold box; position by position, what it returns. *)
Lemma bboxes_training_spec anchors gold_classes gold_bboxes thr xs ys assigned :
  boxes_of anchors = Ok xs -> boxes_of gold_bboxes = Ok ys ->
  length gold_classes = length ys ->
  assign_anchors anchors gold_bboxes thr = Ok assigned ->
  exists classes rcnns,
    bboxes_training anchors gold_classes gold_bboxes thr = Ok (classes, rcnns) /\
    length classes = length xs /\ length rcnns = length xs /\
    forall (a : nat) x v, xs !! a = Some x -> assigned !! a = Some v ->
      (v = (-1)%Z -> classes !! a = Some 0%Z /\ rcnns !! a = Some zero_rcnn) /\
      (forall (g : nat) c y, v = Z.of_nat g ->
         gold_classes !! g = Some c -> ys !! g = Some y ->
         classes !! a = Some (add64 1 c) /\ rcnns !! a = Some (bboxes_to_rcnn x y)).
Proof.
  intros Hxs Hys Hgc Hrun.
  destruct (assign_anchors_Ok _ _ _ _ _ _ Hxs Hys Hrun) as [Hlen Hentries].
  unfold bboxes_training. rewrite Hrun, bind_Ok_l.
  apply materialize_spec; assumption.
Qed.

Lemma row_box_take r : row_box (take 4 r) = row_box r.
Proof. destruct r as [| a [| b [| c [| d r]]]]; reflexivity. Qed.

Lemma boxes_of_narrow t : (4 <= last_dim t)%nat -> boxes_of (narrow t) = boxes_of t.
Proof.
  intros Hd. rewrite (boxes_of_ok t Hd), (boxes_of_ok (narrow t)) by (simpl; lia).
  simpl. rewrite <- list_fmap_compose. f_equal.
  apply list_fmap_ext. intros i r _. apply row_box_take.
Qed.

Lemma assign_anchors_narrow anchors gold_bboxes thr :
  (4 <= last_dim anchors)%nat -> (4 <= last_dim gold_bboxes)%nat ->
  assign_anchors (narrow anchors) (narrow gold_bboxes) thr
  = assign_anchors anchors gold_bboxes thr.
Proof.
  intros Ha Hg. unfold assign_anchors, iou_matrix.
  rewrite (boxes_of_narrow _ Ha), (boxes_of_narrow _ Hg).
  simpl. rewrite !length_fmap. reflexivity.
Qed.

Lemma index_z_fmap {A B} (f : A -> B) (l : list A) i :
  index_z (f <$> l) i
  = match index_z l i with Ok x => Ok (f x) | Raise e => Raise e end.
Proof.
  unfold index_z, index. rewrite length_fmap.
  repeat case_decide; try reflexivity;
    rewrite list_lookup_fmap; destruct (l !! _); reflexivity.
Qed.

Lemma gather_fmap {A B} (f : A -> B) (l : list A) idx :
  gather (f <$> l) idx
  = match gather l idx with Ok r => Ok (f <$> r) | Raise e => Raise e end.
Proof.
  unfold gather. induction idx as [| i idx IH]; simpl; [reflexivity |].
  rewrite index_z_fmap. destruct (index_z l i) as [x | e]; simpl; [| reflexivity].
  rewrite IH. destruct (mapM (index_z l) idx); reflexivity.
Qed.

Lemma bboxes_to_rcnn_rows_narrow da dg (ra rg : list (list R)) :
  (4 <= da)%nat -> (4 <= dg)%nat ->
  bboxes_to_rcnn_rows (mkTensor 4 (take 4 <$> ra)) (mkTensor 4 (take 4 <$> rg))
  = bboxes_to_rcnn_rows (mkTensor da ra) (mkTensor dg rg).
Proof.
  intros Ha Hg. unfold bboxes_to_rcnn_rows.
  change (mkTensor 4 (take 4 <$> ra)) with (narrow (mkTensor da ra)).
  change (mkTensor 4 (take 4 <$> rg)) with (narrow (mkTensor dg rg)).
  rewrite !boxes_of_narrow by (simpl; assumption). reflexivity.
Qed.

Lemma materialize_narrow anchors gold_classes gold_bboxes assigned :
  (4 <= last_dim anchors)%nat -> (4 <= last_dim gold_bboxes)%nat ->
  materialize (narrow anchors) gold_classes (narrow gold_bboxes) assigned
  = materialize anchors gold_classes gold_bboxes assigned.
Proof.
  intros Ha Hg. unfold materialize. simpl rows. simpl last_dim.
  rewrite length_fmap.
  destruct (any _); [| reflexivity].
  destruct (gather gold_classes _) as [classes | e]; [| reflexivity].
  rewrite !bind_Ok_l, gather_fmap.
  destruct (gather (rows gold_bboxes) _) as [gold_rows | e]; [| reflexivity].
  rewrite !bind_Ok_l, masked_select_fmap.
  rewrite (bboxes_to_rcnn_rows_narrow _ _ _ _ Ha Hg). reflexivity.
Qed.

Lemma bboxes_training_narrow anchors gold_classes gold_bboxes thr :
  (4 <= last_dim anchors)%nat -> (4 <= last_dim gold_bboxes)%nat ->
  bboxes_training (narrow anchors) gold_classes (narrow gold_bboxes) thr
  = bboxes_training anchors gold_classes gold_bboxes thr.
Proof.
  intros Ha Hg. unfold bboxes_training. rewrite (assign_anchors_narrow _ _ _ Ha Hg).
  destruct (assign_anchors anchors gold_bboxes thr) as [assigned | e]; [| reflexivity].
  rewrite !bind_Ok_l. apply materialize_narrow; assumption.
Qed.

Lemma bboxes_training_short anchors gold_classes gold_bboxes thr :
  (last_dim anchors < 4)%nat \/ (last_dim gold_bboxes < 4)%nat ->
  bboxes_training anchors gold_classes gold_bboxes thr = Raise IndexError.
Proof.
  intros Hd. unfold bboxes_training, assign_anchors.
  rewrite (iou_matrix_short _ _ Hd). reflexivity.
Qed.

(** With threshold 0 and gold boxes of positive area no entry of
    [assigned_gold] is left at the sentinel. *)
Lemma threshold_zero_entries xs ys s1 s2 :
  Forall (fun y => 0 < bboxes_area y) ys ->
  pass1_state xs ys (length ys) s1 ->
  pass2_state xs ys 0 s1 (length xs) s2 ->
  Forall (fun v => (0 <= v < Z.of_nat (length ys))%Z) s2.
Proof.
  intros Hpos Hs1 (Hlen & _ & Hdone). apply Forall_lookup. intros a v Hv.
  assert (Ha : (a < length xs)%nat) by (rewrite <- Hlen; eapply lookup_lt_Some; exact Hv).
  destruct (lookup_lt_is_Some_2 xs a Ha) as [x Hx].
  destruct (lookup_lt_is_Some_2 s1 a) as [cur Hcur]; [rewrite (proj1 Hs1); exact Ha |].
  destruct (Hdone a x cur Ha Hx Hcur) as (v' & Hv' & Hheld & Hfree).
  rewrite Hv in Hv'. injection Hv' as <-.
  destruct (decide (cur = (-1)%Z)) as [Hc | Hc].
  - destruct (Hfree Hc) as (g & m & Hbest & Hge & _).
    pose proof (best_gold_lt _ _ _ _ Hbest) as Hg.
    destruct Hbest as (Hm & _). unfold iou_row in Hm.
    apply list_lookup_fmap_Some in Hm as (y & -> & Hy).
    pose proof (proj1 (Forall_lookup _ _) Hpos g y Hy) as Hy_pos.
    rewrite (Hge (proj1 (bboxes_iou_range_r x y Hy_pos))). lia.
  - rewrite (Hheld Hc).
    destruct (proj1 (Forall_lookup _ _) (pass1_state_entries _ _ _ _ Hs1) a cur Hcur)
      as [Hfree' | Hr]; [contradiction | exact Hr].
Qed.

(** C4. Target materialization: for every anchor that the two loops assigned
    to gold index [g], the returned class is [1 + gold_classes[g]] (the
    64-bit tensor addition, which is the integer one when it does not
    overflow) and the returned regression row is
    [bboxes_to_rcnn(anchor, gold_bboxes[g])]; for every anchor left
    unassigned the class is 0 and the row is (0, 0, 0, 0); every entry of
    [assigned_gold] is one of the two. *)
Theorem target_materialization anchors gold_classes gold_bboxes thr xs ys assigned :
  boxes_of anchors = Ok xs -> boxes_of gold_bboxes = Ok ys ->
  length gold_classes = length ys ->
  assign_anchors anchors gold_bboxes thr = Ok assigned ->
  exists classes rcnns,
    bboxes_training anchors gold_classes gold_bboxes thr = Ok (classes, rcnns) /\
    length classes = length xs /\ length rcnns = length xs /\
    forall (a : nat) x v, xs !! a = Some x -> assigned !! a = Some v ->
      (v = (-1)%Z \/ exists g : nat, v = Z.of_nat g /\ (g < length ys)%nat) /\
      (v = (-1)%Z ->
       classes !! a = Some 0%Z /\ rcnns !! a = Some (mkRcnn 0 0 0 0)) /\
      (forall (g : nat) c y, v = Z.of_nat g ->
         gold_classes !! g = Some c -> ys !! g = Some y ->
         classes !! a = Some (add64 1 c) /\
         ((- 2 ^ 63 <= 1 + c < 2 ^ 63)%Z -> classes !! a = Some (1 + c)%Z) /\
         rcnns !! a = Some (bboxes_to_rcnn x y)).
Proof.
  intros Hxs Hys Hgc Hrun.
  destruct (assign_anchors_Ok _ _ _ _ _ _ Hxs Hys Hrun) as [Hlen Hentries].
  destruct (bboxes_training_spec _ _ _ _ _ _ _ Hxs Hys Hgc Hrun)
    as (classes & rcnns & Hret & Hlc & Hlr & Hpoint).
  exists classes, rcnns. split; [exact Hret |]. split; [exact Hlc |]. split; [exact Hlr |].
  intros a x v Hx Hv. destruct (Hpoint a x v Hx Hv) as [Hfree Hheld].
  split; [| split].
  - destruct (proj1 (Forall_lookup _ _) Hentries a v Hv) as [Hm | Hr]; [left; exact Hm |].
    right. exists (Z.to_nat v). split; lia.
  - exact Hfree.
  - intros g c y Hg Hc Hy. destruct (Hheld g c y Hg Hc Hy) as [Hcls Hrow].
    split; [exact Hcls |]. split; [| exact Hrow].
    intros Hrange. rewrite Hcls, (add64_exact c Hrange). reflexivity.
Qed.

Lemma wide_assign_anchors : assign_anchors wide_anchor wide_gold (1 / 2) = Ok [0%Z].
Proof. reflexivity. Qed.

Lemma target_materialization_witness :
  exists classes rcnns,
    bboxes_training wide_anchor [3%Z] wide_gold (1 / 2) = Ok (classes, rcnns) /\
    length classes = 1%nat /\ length rcnns = 1%nat.
Proof.
  destruct (target_materialization wide_anchor [3%Z] wide_gold (1 / 2)
              (row_box <$> rows wide_anchor) (row_box <$> rows wide_gold) [0%Z])
    as (classes & rcnns & Hret & Hlc & Hlr & _).
  - reflexivity.
  - reflexivity.
  - reflexivity.
  - exact wide_assign_anchors.
  - exists classes, rcnns. split; [exact Hret |]. split; [exact Hlc | exact Hlr].
Defined.

(** C5 (the code fails the claim). With one anchor and an empty gold tensor of
    shape (0, 4) the call raises, for every threshold: the second loop takes
    [torch.max] of the empty row of the free anchor. *)
Theorem no_gold_call_raises thr :
  bboxes_training one_anchor [] no_gold thr = Raise EmptyReduction.
Proof. reflexivity. Qed.

(** The same for every non-empty anchor tensor. *)
Lemma no_gold_raises anchors gold_classes thr d :
  (4 <= last_dim anchors)%nat -> rows anchors <> [] -> (4 <= d)%nat ->
  bboxes_training anchors gold_classes (mkTensor d []) thr = Raise EmptyReduction.
Proof.
  intros Hd Hrows Hg. unfold bboxes_training.
  destruct (rows anchors) as [| r rs] eqn:E; [congruence |].
  rewrite (assign_anchors_no_gold anchors (mkTensor d []) thr (row_box r) (row_box <$> rs)).
  - reflexivity.
  - rewrite (boxes_of_ok _ Hd), E. reflexivity.
  - rewrite boxes_of_ok by (simpl; exact Hg). reflexivity.
Qed.

(** Without anchors the empty gold list returns the empty targets. *)
Lemma no_gold_no_anchor thr :
  bboxes_training (mkTensor 4 []) [] no_gold thr = Ok ([], []).
Proof. reflexivity. Qed.

(** C7. Threshold zero: with well-formed anchors and a non-empty list of gold
    boxes of positive area, the call with [iou_threshold = 0] leaves no anchor
    at the sentinel: whenever the loops return, every entry of
    [assigned_gold] is a gold index, and they do return when there is an
    anchor; the call then returns a positive class for every anchor when the
    gold classes are non-negative 64-bit integers below the largest one. *)
Theorem threshold_zero_assigns_every_anchor anchors gold_classes gold_bboxes xs ys :
  boxes_of anchors = Ok xs -> boxes_of gold_bboxes = Ok ys ->
  Forall well_formed xs ->
  ys <> [] -> Forall (fun y => 0 < bboxes_area y) ys ->
  (xs <> [] -> succeeds (assign_anchors anchors gold_bboxes 0)) /\
  (forall assigned, assign_anchors anchors gold_bboxes 0 = Ok assigned ->
     length assigned = length xs /\
     Forall (fun v => (0 <= v < Z.of_nat (length ys))%Z) assigned) /\
  (xs <> [] -> length gold_classes = length ys ->
   Forall (fun c => (0 <= c < 2 ^ 63 - 1)%Z) gold_classes ->
   exists classes rcnns,
     bboxes_training anchors gold_classes gold_bboxes 0 = Ok (classes, rcnns) /\
     length classes = length xs /\
     Forall (fun c => (0 < c)%Z) classes).
Proof.
  intros Hxs Hys _ Hne Hpos.
  assert (Hall : forall assigned, assign_anchors anchors gold_bboxes 0 = Ok assigned ->
            length assigned = length xs /\
            Forall (fun v => (0 <= v < Z.of_nat (length ys))%Z) assigned).
  { intros assigned Hrun. destruct xs as [| x xs].
    - destruct ys as [| y ys]; [congruence |].
      rewrite (assign_anchors_no_anchor _ _ _ _ _ Hxs Hys) in Hrun. discriminate.
    - destruct (assign_anchors_spec _ _ 0 _ _ Hxs Hys) as (s1 & s2 & _ & Hs1 & Hrun2 & Hs2);
        [discriminate | exact Hne |].
      rewrite Hrun in Hrun2. injection Hrun2 as <-.
      split; [exact (proj1 Hs2) | exact (threshold_zero_entries _ _ _ _ Hpos Hs1 Hs2)]. }
  split; [| split; [exact Hall |]].
  - intros Hx.
    destruct (assign_anchors_spec _ _ 0 _ _ Hxs Hys Hx Hne) as (s1 & s2 & _ & _ & Hrun & _).
    exists s2. exact Hrun.
  - intros Hx Hgc Hclasses.
    destruct (assign_anchors_spec _ _ 0 _ _ Hxs Hys Hx Hne) as (s1 & s2 & _ & _ & Hrun & _).
    destruct (Hall s2 Hrun) as [Hlen Hentries].
    destruct (bboxes_training_spec _ _ _ _ _ _ _ Hxs Hys Hgc Hrun)
      as (classes & rcnns & Hret & Hlc & _ & Hpoint).
    exists classes, rcnns. split; [exact Hret |]. split; [exact Hlc |].
    apply Forall_lookup. intros a c' Hc'.
    assert (Ha : (a < length xs)%nat) by (rewrite <- Hlc; eapply lookup_lt_Some; exact Hc').
    destruct (lookup_lt_is_Some_2 xs a Ha) as [x Hx'].
    destruct (lookup_lt_is_Some_2 s2 a) as [v Hv]; [lia |].
    pose proof (proj1 (Forall_lookup _ _) Hentries a v Hv) as Hr. cbv beta in Hr.
    destruct (lookup_lt_is_Some_2 gold_classes (Z.to_nat v)) as [c Hc]; [lia |].
    destruct (lookup_lt_is_Some_2 ys (Z.to_nat v)) as [y Hy]; [lia |].
    destruct (Hpoint a x v Hx' Hv) as [_ Hheld].
    destruct (Hheld (Z.to_nat v) c y) as [Hcls _]; [lia | exact Hc | exact Hy |].
    rewrite Hc' in Hcls. injection Hcls as ->.
    pose proof (proj1 (Forall_lookup _ _) Hclasses _ c Hc) as Hcr. cbv beta in Hcr.
    rewrite add64_exact by lia. lia.
Qed.

(** On the grid of four anchors with the two gold boxes of
    [contested_golds], the first loop leaves anchors 1, 2 and 3 free; with
    threshold 0 the second loop assigns all three, anchors 2 and 3 with IoU
    0 against both gold boxes. *)
Lemma contested_assign_zero :
  assign_anchors grid_tensor contested_tensor 0 = Ok [0; 1; 0; 0]%Z.
Proof.
  rewrite (assign_anchors_boxes grid_tensor contested_tensor 0
             grid_anchors contested_golds) by reflexivity.
  change (length contested_golds) with 2%nat.
  change (length grid_anchors) with 4%nat.
  rewrite contested_pass1, bind_Ok_l, contested_iou_table.
  unfold pass2, for_range. simpl seq.
  unfold for_each, pass2_step, torch_max. simpl.
  repeat (match goal with
          | |- context [Rlt_dec ?a ?b] =>
              destruct (Rlt_dec a b); [try (exfalso; lra) | try (exfalso; lra)]
          | |- context [Rge_dec ?a ?b] =>
              destruct (Rge_dec a b); [try (exfalso; lra) | try (exfalso; lra)]
          end; simpl).
  reflexivity.
Qed.

Lemma threshold_zero_assigns_every_anchor_witness :
  pass1 (iou_table grid_anchors contested_golds) 2 (replicate 4 (-1)%Z)
  = Ok [0; -1; -1; -1]%Z /\
  bboxes_iou (mkBox 10 0 20 10) (mkBox 0 0 10 5) = 0 /\
  bboxes_iou (mkBox 10 0 20 10) (mkBox 0 4 10 12) = 0 /\
  assign_anchors grid_tensor contested_tensor 0 = Ok [0; 1; 0; 0]%Z /\
  succeeds (assign_anchors grid_tensor contested_tensor 0) /\
  Forall (fun v => (0 <= v < 2)%Z) [0; 1; 0; 0]%Z /\
  exists classes rcnns,
    bboxes_training grid_tensor [3; 5]%Z contested_tensor 0 = Ok (classes, rcnns) /\
    length classes = 4%nat /\
    Forall (fun c => (0 < c)%Z) classes.
Proof.
  destruct (threshold_zero_assigns_every_anchor grid_tensor [3; 5]%Z contested_tensor
              grid_anchors contested_golds)
    as (Hruns & Hall & Hclasses).
  - reflexivity.
  - reflexivity.
  - repeat constructor; simpl; lra.
  - discriminate.
  - repeat constructor; apply positive_size_area; unfold positive_size; simpl; lra.
  - split; [exact contested_pass1 |].
    split; [iou_eval |]. split; [iou_eval |].
    split; [exact contested_assign_zero |].
    split; [apply Hruns; discriminate |].
    split; [exact (proj2 (Hall _ contested_assign_zero)) |].
    apply Hclasses.
    + discriminate.
    + reflexivity.
    + repeat constructor; lia.
Defined.

(** C8 (as amended). The call has no shape check of its own.  When the last
    dimension of the anchor tensor or of the gold tensor is smaller than 4,
    the call fails with the index error of a coordinate read in the IoU
    computation, before anything is assigned or encoded; when both are at
    least 4 the call is not rejected: the columns after the fourth are never
    read, and the call returns what it returns on the tensors cut down to
    four columns. *)
Theorem coordinate_reads_check_last_dimension anchors gold_classes gold_bboxes thr :
  ((last_dim anchors < 4)%nat \/ (last_dim gold_bboxes < 4)%nat ->
   iou_matrix anchors gold_bboxes = Raise IndexError /\
   bboxes_training anchors gold_classes gold_bboxes thr = Raise IndexError) /\
  ((4 <= last_dim anchors)%nat -> (4 <= last_dim gold_bboxes)%nat ->
   bboxes_training anchors gold_classes gold_bboxes thr
   = bboxes_training (narrow anchors) gold_classes (narrow gold_bboxes) thr).
Proof.
  split.
  - intros Hd. split; [exact (iou_matrix_short _ _ Hd) |].
    exact (bboxes_training_short _ _ _ _ Hd).
  - intros Ha Hg. symmetry. apply bboxes_training_narrow; assumption.
Qed.

Lemma coordinate_reads_check_last_dimension_witness :
  bboxes_training short_anchor [3%Z] wide_gold (1 / 2) = Raise IndexError /\
  bboxes_training wide_anchor [3%Z] wide_gold (1 / 2)
  = bboxes_training (narrow wide_anchor) [3%Z] (narrow wide_gold) (1 / 2).
Proof.
  split.
  - apply (proj1 (coordinate_reads_check_last_dimension
                    short_anchor [3%Z] wide_gold (1 / 2))).
    left. simpl. lia.
  - apply (proj2 (coordinate_reads_check_last_dimension
                    wide_anchor [3%Z] wide_gold (1 / 2))); simpl; lia.
Defined.

(** C8 (as stated) fails: the last dimension of both tensors is 5, not 4, and
    the call returns the targets of the one anchor instead of failing. *)
Lemma shape_validation_counterexample :
  last_dim wide_anchor = 5%nat /\ last_dim wide_gold = 5%nat /\
  bboxes_training wide_anchor [3%Z] wide_gold (1 / 2)
  = Ok ([4%Z], [bboxes_to_rcnn (mkBox 0 0 10 10) (mkBox 2 2 8 8)]).
Proof. repeat split. Qed.

End Training.

(** * Two cases of the source's [test_bboxes_training] *)

Section SourceTests.

Lemma big_gold_iou_table :
  iou_table grid_anchors [mkBox 0 0 20 20] = [[1 / 4]; [1 / 4]; [1 / 4]; [1 / 4]].
Proof.
  unfold iou_table, iou_row, grid_anchors.
  rewrite !fmap_cons, !fmap_nil.
  repeat f_equal; iou_eval.
Qed.

Lemma big_gold_assign thr :
  assign_anchors grid_tensor big_gold thr
  = pass1 [[1 / 4]; [1 / 4]; [1 / 4]; [1 / 4]] 1 (replicate 4 (-1)%Z)
      ≫= pass2 [[1 / 4]; [1 / 4]; [1 / 4]; [1 / 4]] thr 4.
Proof.
  rewrite (assign_anchors_boxes grid_tensor big_gold thr grid_anchors [mkBox 0 0 20 20])
    by reflexivity.
  rewrite big_gold_iou_table. reflexivity.
Qed.

(** Threshold 0.26: only anchor 0, the first of the four tied anchors, is
    assigned; the classes are [[3, 0, 0, 0]]. *)
Example test_threshold_026 :
  assign_anchors grid_tensor big_gold (26 / 100) = Ok [0; -1; -1; -1]%Z /\
  bboxes_training grid_tensor [2%Z] big_gold (26 / 100)
  = Ok ([3; 0; 0; 0]%Z,
        [bboxes_to_rcnn (mkBox 0 0 10 10) (mkBox 0 0 20 20);
         zero_rcnn; zero_rcnn; zero_rcnn]).
Proof.
  assert (H : assign_anchors grid_tensor big_gold (26 / 100) = Ok [0; -1; -1; -1]%Z).
  { rewrite big_gold_assign.
    unfold pass1, pass2, for_range. simpl seq.
    unfold for_each, pass1_step, pass2_step, column, torch_argmax, torch_max. simpl.
    real_tests. simpl. real_tests. reflexivity. }
  split; [exact H |].
  unfold bboxes_training. rewrite H. reflexivity.
Qed.

(** Threshold 0.24: Pass 2 assigns the other three anchors too; the classes
    are [[3, 3, 3, 3]]. *)
Example test_threshold_024 :
  assign_anchors grid_tensor big_gold (24 / 100) = Ok [0; 0; 0; 0]%Z /\
  exists rcnns,
    bboxes_training grid_tensor [2%Z] big_gold (24 / 100) = Ok ([3; 3; 3; 3]%Z, rcnns).
Proof.
  assert (H : assign_anchors grid_tensor big_gold (24 / 100) = Ok [0; 0; 0; 0]%Z).
  { rewrite big_gold_assign.
    unfold pass1, pass2, for_range. simpl seq.
    unfold for_each, pass1_step, pass2_step, column, torch_argmax, torch_max. simpl.
    real_tests. simpl. real_tests. reflexivity. }
  split; [exact H |].
  unfold bboxes_training. rewrite H. eexists. reflexivity.
Qed.

End SourceTests.

(** * More on areas and IoU *)

Section GeometryMore.

Lemma relu_nonpos x : x <= 0 -> relu x = 0.
Proof. intros Hx. unfold relu. apply Rmax_left. exact Hx. Qed.

Lemma relu_scale x k : 0 <= k -> relu (x * k) = relu x * k.
Proof.
  intros Hk. unfold relu, Rmax.
  destruct (Rle_dec 0 (x * k)), (Rle_dec 0 x); nra.
Qed.

Lemma Rmax_scale x y k : 0 <= k -> Rmax (x * k) (y * k) = Rmax x y * k.
Proof.
  intros Hk. unfold Rmax.
  destruct (Rle_dec (x * k) (y * k)), (Rle_dec x y); nra.
Qed.

Lemma Rmin_scale x y k : 0 <= k -> Rmin (x * k) (y * k) = Rmin x y * k.
Proof.
  intros Hk. unfold Rmin.
  destruct (Rle_dec (x * k) (y * k)), (Rle_dec x y); nra.
Qed.

Lemma Rmax_shift x y d : Rmax (x + d) (y + d) = Rmax x y + d.
Proof. unfold Rmax. destruct (Rle_dec (x + d) (y + d)), (Rle_dec x y); lra. Qed.

Lemma Rmin_shift x y d : Rmin (x + d) (y + d) = Rmin x y + d.
Proof. unfold Rmin. destruct (Rle_dec (x + d) (y + d)), (Rle_dec x y); lra. Qed.

Lemma intersection_comm a b : intersection a b = intersection b a.
Proof.
  unfold intersection.
  rewrite (Rmax_comm (b_top a)), (Rmax_comm (b_left a)),
    (Rmin_comm (b_bottom a)), (Rmin_comm (b_right a)).
  reflexivity.
Qed.

Lemma intersection_scale sy sx a b :
  0 <= sy -> 0 <= sx ->
  intersection (scale_box sy sx a) (scale_box sy sx b)
  = scale_box sy sx (intersection a b).
Proof.
  intros Hy Hx. unfold intersection, scale_box; simpl.
  rewrite !Rmax_scale, !Rmin_scale by assumption. reflexivity.
Qed.

Lemma intersection_shift dy dx a b :
  intersection (shift_box dy dx a) (shift_box dy dx b)
  = shift_box dy dx (intersection a b).
Proof.
  unfold intersection, shift_box; simpl.
  rewrite !Rmax_shift, !Rmin_shift. reflexivity.
Qed.

Lemma bboxes_area_scale sy sx b :
  0 <= sy -> 0 <= sx ->
  bboxes_area (scale_box sy sx b) = sy * sx * bboxes_area b.
Proof.
  intros Hy Hx. unfold bboxes_area, scale_box; simpl.
  rewrite <- !Rmult_minus_distr_r, !relu_scale by assumption. ring.
Qed.

Lemma bboxes_area_shift dy dx b : bboxes_area (shift_box dy dx b) = bboxes_area b.
Proof.
  unfold bboxes_area, shift_box; simpl.
  replace (b_bottom b + dy - (b_top b + dy)) with (b_bottom b - b_top b) by ring.
  replace (b_right b + dx - (b_left b + dx)) with (b_right b - b_left b) by ring.
  reflexivity.
Qed.

Lemma union_area_pos a b :
  0 < bboxes_area a \/ 0 < bboxes_area b ->
  0 < bboxes_area a + bboxes_area b - bboxes_area (intersection a b).
Proof.
  intros H.
  pose proof (intersection_area_le_l a b). pose proof (intersection_area_le_r a b).
  destruct H; lra.
Qed.

(** The overlap of two intervals of positive length is empty exactly when
    one ends before the other starts, and is the whole first interval exactly
    when the second one covers it. *)
Lemma overlap_zero lo1 hi1 lo2 hi2 :
  lo1 < hi1 -> lo2 < hi2 ->
  relu (Rmin hi1 hi2 - Rmax lo1 lo2) = 0 <-> hi1 <= lo2 \/ hi2 <= lo1.
Proof.
  intros H1 H2. unfold Rmax, Rmin.
  destruct (Rle_dec hi1 hi2), (Rle_dec lo1 lo2); unfold relu, Rmax;
    match goal with |- context [Rle_dec ?a ?b] => destruct (Rle_dec a b) end;
    (split; [intros H; first [left; lra | right; lra | exfalso; lra]
            | intros [H | H]; lra]).
Qed.

Lemma overlap_full lo1 hi1 lo2 hi2 :
  lo1 < hi1 ->
  relu (Rmin hi1 hi2 - Rmax lo1 lo2) = hi1 - lo1 -> lo2 <= lo1 /\ hi1 <= hi2.
Proof.
  intros H1. unfold Rmax, Rmin.
  destruct (Rle_dec hi1 hi2), (Rle_dec lo1 lo2); unfold relu, Rmax;
    match goal with |- context [Rle_dec ?a ?b] => destruct (Rle_dec a b) end;
    intros H; lra.
Qed.

(** A product of two factors, each at most its bound, reaches the product of
    the positive bounds only when both factors reach theirs. *)
Lemma product_reaches_bounds p q P Q :
  0 <= p <= P -> 0 <= q <= Q -> 0 < P -> 0 < Q -> p * q = P * Q -> p = P /\ q = Q.
Proof.
  intros Hp Hq HP HQ Heq.
  destruct (Rle_lt_dec P p) as [HPp | HpP].
  - assert (p = P) by lra. subst p. split; [reflexivity |]. nra.
  - exfalso. assert (p * q <= p * Q) by nra. nra.
Qed.

(** When the intersection has the area of the first box, the second box
    covers the first. *)
Lemma intersection_area_full a b :
  positive_size a -> bboxes_area (intersection a b) = bboxes_area a -> inside a b.
Proof.
  intros [Hh Hw] Heq. unfold bboxes_area, intersection in Heq; simpl in Heq.
  rewrite (relu_pos (b_bottom a - b_top a)), (relu_pos (b_right a - b_left a)) in Heq
    by assumption.
  pose proof (overlap_le_l (b_top a) (b_bottom a) (b_top b) (b_bottom b)) as Hlh.
  pose proof (overlap_le_l (b_left a) (b_right a) (b_left b) (b_right b)) as Hlw.
  rewrite (relu_pos (b_bottom a - b_top a)) in Hlh by assumption.
  rewrite (relu_pos (b_right a - b_left a)) in Hlw by assumption.
  destruct (product_reaches_bounds _ _ _ _
              (conj (relu_nonneg _) Hlh) (conj (relu_nonneg _) Hlw) Hh Hw Heq)
    as [Eh Ew].
  apply overlap_full in Eh; [| lra]. apply overlap_full in Ew; [| lra].
  unfold inside. lra.
Qed.

Lemma intersection_inside a b : inside a b -> intersection a b = a.
Proof.
  intros (Ht & Hb & Hl & Hr). destruct a as [ta la ba ra]. simpl in *.
  unfold intersection; simpl.
  rewrite (Rmax_left ta), (Rmax_left la), (Rmin_left ba), (Rmin_left ra) by assumption.
  reflexivity.
Qed.

Lemma inside_antisym a b : inside a b -> inside b a -> a = b.
Proof.
  intros (Ht & Hb & Hl & Hr) (Ht' & Hb' & Hl' & Hr').
  destruct a, b; simpl in *. f_equal; lra.
Qed.

(** X1. [bboxes_area] is never negative; it is 0 for a box that is
    degenerate or inverted along either axis; for a well-formed box it is
    height times width. *)
Theorem bboxes_area_cases b :
  0 <= bboxes_area b /\
  (b_bottom b <= b_top b \/ b_right b <= b_left b -> bboxes_area b = 0) /\
  (well_formed b ->
   bboxes_area b = (b_bottom b - b_top b) * (b_right b - b_left b)).
Proof.
  split; [apply bboxes_area_nonneg |]. unfold bboxes_area. split.
  - intros [H | H].
    + rewrite (relu_nonpos (b_bottom b - b_top b)) by lra. ring.
    + rewrite (relu_nonpos (b_right b - b_left b)) by lra. ring.
  - intros [Hh Hw]. unfold relu. rewrite !Rmax_right by lra. reflexivity.
Qed.

Lemma bboxes_area_cases_witness :
  bboxes_area (mkBox 10 0 0 10) = 0 /\ bboxes_area (mkBox 0 0 2 3) = (2 - 0) * (3 - 0).
Proof.
  split.
  - apply (proj1 (proj2 (bboxes_area_cases (mkBox 10 0 0 10)))). left. simpl. lra.
  - apply (proj2 (proj2 (bboxes_area_cases (mkBox 0 0 2 3)))).
    unfold well_formed; simpl; lra.
Defined.

(** X2. IoU is symmetric: [bboxes_iou a b = bboxes_iou b a] for all boxes. *)
Theorem bboxes_iou_sym a b : bboxes_iou a b = bboxes_iou b a.
Proof.
  unfold bboxes_iou; cbv zeta. rewrite (intersection_comm a b).
  rewrite (Rplus_comm (bboxes_area a)). reflexivity.
Qed.

(** X3. For two boxes of strictly positive height and width, the IoU is 1
    exactly when the boxes are equal. *)
Theorem bboxes_iou_one_iff_equal a b :
  positive_size a -> positive_size b -> bboxes_iou a b = 1 <-> a = b.
Proof.
  intros Ha Hb.
  pose proof (positive_size_area a Ha) as HA. pose proof (positive_size_area b Hb) as HB.
  pose proof (intersection_area_le_l a b) as Hl.
  pose proof (intersection_area_le_r a b) as Hr.
  pose proof (union_area_pos a b (or_introl HA)) as HD.
  split.
  - intros H1. unfold bboxes_iou in H1; cbv zeta in H1.
    assert (HI : bboxes_area (intersection a b)
                 = bboxes_area a + bboxes_area b - bboxes_area (intersection a b)).
    { apply (Rmult_eq_compat_r
               (bboxes_area a + bboxes_area b - bboxes_area (intersection a b))) in H1.
      unfold Rdiv in H1. rewrite Rmult_assoc, Rinv_l, Rmult_1_r, Rmult_1_l in H1 by lra.
      exact H1. }
    apply inside_antisym.
    + apply intersection_area_full; [exact Ha | lra].
    + apply intersection_area_full; [exact Hb | rewrite intersection_comm; lra].
  - intros <-. apply bboxes_iou_value.
    + apply union_area_pos. left. exact HA.
    + rewrite (intersection_inside a a) by (unfold inside; lra). ring.
Qed.

Lemma bboxes_iou_one_iff_equal_witness :
  bboxes_iou (mkBox 0 0 10 10) (mkBox 0 0 10 10) = 1.
Proof.
  apply (proj2 (bboxes_iou_one_iff_equal (mkBox 0 0 10 10) (mkBox 0 0 10 10)
                  ltac:(unfold positive_size; simpl; lra)
                  ltac:(unfold positive_size; simpl; lra))).
  reflexivity.
Defined.

(** X4. For two boxes of strictly positive height and width, the IoU is 0
    exactly when their interiors do not meet: one box ends before the other
    starts, along the rows or along the columns. *)
Theorem bboxes_iou_zero_iff_apart a b :
  positive_size a -> positive_size b -> bboxes_iou a b = 0 <-> apart a b.
Proof.
  intros Ha Hb.
  pose proof (union_area_pos a b (or_introl (positive_size_area a Ha))) as HD.
  destruct Ha as [Hah Haw], Hb as [Hbh Hbw].
  assert (Hzero : bboxes_iou a b = 0 <-> bboxes_area (intersection a b) = 0).
  { unfold bboxes_iou; cbv zeta. split.
    - intros H. apply (Rmult_eq_compat_r
        (bboxes_area a + bboxes_area b - bboxes_area (intersection a b))) in H.
      unfold Rdiv in H. rewrite Rmult_assoc, Rinv_l, Rmult_1_r, Rmult_0_l in H by lra.
      exact H.
    - intros ->. unfold Rdiv. ring. }
  rewrite Hzero. unfold bboxes_area, intersection, apart; simpl.
  pose proof (overlap_zero (b_top a) (b_bottom a) (b_top b) (b_bottom b)) as Hrows.
  pose proof (overlap_zero (b_left a) (b_right a) (b_left b) (b_right b)) as Hcols.
  split.
  - intros H. apply Rmult_integral in H as [H | H].
    + apply Hrows in H; [| lra | lra]. destruct H; [left | right; left]; assumption.
    + apply Hcols in H; [| lra | lra].
      destruct H; [right; right; left | right; right; right]; assumption.
  - intros [H | [H | [H | H]]].
    + rewrite (proj2 (Hrows ltac:(lra) ltac:(lra)) (or_introl H)). ring.
    + rewrite (proj2 (Hrows ltac:(lra) ltac:(lra)) (or_intror H)). ring.
    + rewrite (proj2 (Hcols ltac:(lra) ltac:(lra)) (or_introl H)). ring.
    + rewrite (proj2 (Hcols ltac:(lra) ltac:(lra)) (or_intror H)). ring.
Qed.

Lemma bboxes_iou_zero_iff_apart_witness :
  bboxes_iou (mkBox 0 0 10 10) (mkBox 0 10 10 20) = 0.
Proof.
  apply (proj2 (bboxes_iou_zero_iff_apart (mkBox 0 0 10 10) (mkBox 0 10 10 20)
                  ltac:(unfold positive_size; simpl; lra)
                  ltac:(unfold positive_size; simpl; lra))).
  unfold apart; simpl. right. right. left. lra.
Defined.

(** X5. When box [a] lies inside a box [b] of positive area, their IoU is
    the ratio of the two areas. *)
Theorem bboxes_iou_inside a b :
  inside a b -> 0 < bboxes_area b ->
  bboxes_iou a b = bboxes_area a / bboxes_area b.
Proof.
  intros Hin HB. unfold bboxes_iou; cbv zeta.
  rewrite (intersection_inside a b Hin).
  replace (bboxes_area a + bboxes_area b - bboxes_area a) with (bboxes_area b) by ring.
  reflexivity.
Qed.

Lemma bboxes_iou_inside_witness :
  bboxes_iou (mkBox 2 2 8 8) (mkBox 0 0 10 10)
  = bboxes_area (mkBox 2 2 8 8) / bboxes_area (mkBox 0 0 10 10).
Proof.
  apply bboxes_iou_inside.
  - unfold inside; simpl; lra.
  - apply positive_size_area; unfold positive_size; simpl; lra.
Defined.

(** X6. IoU does not change when both boxes are resized by the same positive
    factors (one for the rows, one for the columns) and moved by the same
    offset, provided the two boxes are not both of zero area. *)
Theorem bboxes_iou_resize_move sy sx dy dx a b :
  0 < sy -> 0 < sx -> 0 < bboxes_area a \/ 0 < bboxes_area b ->
  bboxes_iou (shift_box dy dx (scale_box sy sx a)) (shift_box dy dx (scale_box sy sx b))
  = bboxes_iou a b.
Proof.
  intros Hy Hx Hpos. pose proof (union_area_pos a b Hpos) as HD.
  unfold bboxes_iou; cbv zeta.
  rewrite intersection_shift, !bboxes_area_shift.
  rewrite intersection_scale, !bboxes_area_scale by lra.
  field. split; [lra |].
  replace (sy * sx * bboxes_area a + sy * sx * bboxes_area b
           - sy * sx * bboxes_area (intersection a b))
    with (sy * sx * (bboxes_area a + bboxes_area b - bboxes_area (intersection a b)))
    by ring.
  apply Rgt_not_eq. apply Rmult_lt_0_compat; [apply Rmult_lt_0_compat |]; assumption.
Qed.

Lemma bboxes_iou_resize_move_witness :
  bboxes_iou (shift_box 1 (-1) (scale_box 2 3 (mkBox 0 0 10 10)))
             (shift_box 1 (-1) (scale_box 2 3 (mkBox 5 5 15 15)))
  = bboxes_iou (mkBox 0 0 10 10) (mkBox 5 5 15 15).
Proof.
  apply bboxes_iou_resize_move; [lra | lra |].
  left. apply positive_size_area; unfold positive_size; simpl; lra.
Defined.

End GeometryMore.

(** * More on the R-CNN encoding *)

Section RcnnMore.

(** X7. The other round trip: for an anchor of strictly positive height and
    width, encoding with [bboxes_to_rcnn] the box that [bboxes_from_rcnn]
    decoded gives the offsets back, whatever the offsets. *)
Theorem rcnn_round_trip_offsets anchor rcnn :
  positive_size anchor ->
  bboxes_to_rcnn anchor (bboxes_from_rcnn anchor rcnn) = rcnn.
Proof.
  destruct anchor as [at_ al ab ar], rcnn as [dy dx dh dw].
  unfold positive_size, bboxes_from_rcnn, bboxes_to_rcnn; simpl.
  intros [Hah Haw]. f_equal.
  - field. lra.
  - field. lra.
  - transitivity (ln (exp dh)); [f_equal; field; lra | apply ln_exp].
  - transitivity (ln (exp dw)); [f_equal; field; lra | apply ln_exp].
Qed.

Lemma rcnn_round_trip_offsets_witness :
  bboxes_to_rcnn (mkBox 0 9 10 19)
    (bboxes_from_rcnn (mkBox 0 9 10 19) (mkRcnn (1 / 2) (-3) (-7) 2))
  = mkRcnn (1 / 2) (-3) (-7) 2.
Proof.
  apply rcnn_round_trip_offsets. unfold positive_size; simpl; lra.
Defined.

(** X8. Zero offsets stand for the anchor itself: [bboxes_from_rcnn] decodes
    (0, 0, 0, 0) to the anchor, for every anchor, and [bboxes_to_rcnn]
    encodes an anchor of strictly positive height and width against itself as
    (0, 0, 0, 0). *)
Theorem zero_offsets_are_the_anchor anchor :
  bboxes_from_rcnn anchor zero_rcnn = anchor /\
  (positive_size anchor -> bboxes_to_rcnn anchor anchor = zero_rcnn).
Proof.
  destruct anchor as [at_ al ab ar]. split.
  - unfold bboxes_from_rcnn, zero_rcnn; simpl. rewrite exp_0. f_equal; field.
  - unfold positive_size, bboxes_to_rcnn, zero_rcnn; simpl. intros [Hah Haw].
    replace ((ab - at_) / (ab - at_)) with 1 by (field; lra).
    replace ((ar - al) / (ar - al)) with 1 by (field; lra).
    rewrite ln_1. f_equal; field; lra.
Qed.

Lemma zero_offsets_are_the_anchor_witness :
  bboxes_to_rcnn (mkBox 0 0 10 10) (mkBox 0 0 10 10) = zero_rcnn.
Proof.
  apply (proj2 (zero_offsets_are_the_anchor (mkBox 0 0 10 10))).
  unfold positive_size; simpl; lra.
Defined.

(** X9. The offsets do not depend on the frame: resizing anchor and box by
    the same positive factors and moving them by the same offset leaves
    [bboxes_to_rcnn] unchanged (for an anchor of strictly positive height and
    width), and [bboxes_from_rcnn] of the resized and moved anchor is the
    resized and moved decoded box. *)
Theorem rcnn_resize_move sy sx dy dx anchor bbox rcnn :
  0 < sy -> 0 < sx -> positive_size anchor ->
  bboxes_to_rcnn (shift_box dy dx (scale_box sy sx anchor))
                 (shift_box dy dx (scale_box sy sx bbox))
  = bboxes_to_rcnn anchor bbox /\
  bboxes_from_rcnn (shift_box dy dx (scale_box sy sx anchor)) rcnn
  = shift_box dy dx (scale_box sy sx (bboxes_from_rcnn anchor rcnn)).
Proof.
  destruct anchor as [at_ al ab ar], bbox as [bt bl bb br], rcnn as [ry rx rh rw].
  unfold positive_size, bboxes_to_rcnn, bboxes_from_rcnn, shift_box, scale_box; simpl.
  intros Hy Hx [Hah Haw]. split.
  - f_equal.
    + field. split; [lra | nra].
    + field. split; [lra | nra].
    + f_equal. field. split; [lra | nra].
    + f_equal. field. split; [lra | nra].
  - f_equal; field.
Qed.

Lemma rcnn_resize_move_witness :
  bboxes_to_rcnn (shift_box 1 (-1) (scale_box 2 3 (mkBox 0 0 10 10)))
                 (shift_box 1 (-1) (scale_box 2 3 (mkBox 2 2 8 8)))
  = bboxes_to_rcnn (mkBox 0 0 10 10) (mkBox 2 2 8 8).
Proof.
  apply (rcnn_resize_move 2 3 1 (-1) (mkBox 0 0 10 10) (mkBox 2 2 8 8) zero_rcnn);
    [lra | lra | unfold positive_size; simpl; lra].
Defined.

End RcnnMore.

(** * More on the assignment *)

Section TrainingMore.

Lemma assign_anchors_Ok_boxes anchors gold_bboxes thr s :
  assign_anchors anchors gold_bboxes thr = Ok s ->
  exists xs ys, boxes_of anchors = Ok xs /\ boxes_of gold_bboxes = Ok ys.
Proof.
  intros Hrun.
  destruct (decide (last_dim anchors < 4)%nat) as [Ha | Ha].
  { unfold assign_anchors in Hrun.
    rewrite (iou_matrix_short _ _ (or_introl Ha)) in Hrun. discriminate. }
  destruct (decide (last_dim gold_bboxes < 4)%nat) as [Hg | Hg].
  { unfold assign_anchors in Hrun.
    rewrite (iou_matrix_short _ _ (or_intror Hg)) in Hrun. discriminate. }
  exists (row_box <$> rows anchors), (row_box <$> rows gold_bboxes).
  split; apply boxes_of_ok; lia.
Qed.

(** After both loops the best anchor of a gold object is held by the first
    gold object that has it as best anchor. *)
Lemma best_anchor_holder xs ys thr s1 s2 g y a :
  pass1_state xs ys (length ys) s1 ->
  pass2_state xs ys thr s1 (length xs) s2 ->
  ys !! g = Some y -> best_anchor xs y a ->
  exists g0 y0, (g0 <= g)%nat /\ ys !! g0 = Some y0 /\ best_anchor xs y0 a /\
    (forall g' y', (g' < g0)%nat -> ys !! g' = Some y' -> ~ best_anchor xs y' a) /\
    s2 !! a = Some (Z.of_nat g0).
Proof.
  intros Hs1 (_ & _ & Hdone) Hy Hbest.
  pose proof (best_anchor_lt _ _ _ Hbest) as Ha.
  pose proof (lookup_lt_Some _ _ _ Hy) as Hg.
  destruct (lookup_lt_is_Some_2 xs a Ha) as [x Hx].
  destruct (proj2 Hs1 a Ha) as [[_ Hnone] | (g0 & y0 & Hg0 & Hy0 & Hs & Hbest0 & Hmin)].
  { exfalso. exact (Hnone g y Hg Hy Hbest). }
  exists g0, y0. split.
  { destruct (le_lt_dec g0 g) as [Hle | Hlt]; [exact Hle |].
    exfalso. exact (Hmin g y Hlt Hy Hbest). }
  split; [exact Hy0 |]. split; [exact Hbest0 |]. split; [exact Hmin |].
  destruct (Hdone a x _ Ha Hx Hs) as (v & Hv & Hheld & _).
  rewrite Hv, Hheld by lia. reflexivity.
Qed.

(** X10. Whatever the threshold, the best anchor of every gold object is a
    positive anchor of the result, when the gold classes are non-negative
    64-bit integers below the largest one: the call returns, the class of
    that anchor is [1 + class], which is positive, and its regression row
    is the encoding, both of the first gold object that has it as best
    anchor (the gold object itself when no earlier one has). *)
Theorem best_anchor_is_trained anchors gold_classes gold_bboxes thr xs ys g y a :
  boxes_of anchors = Ok xs -> boxes_of gold_bboxes = Ok ys ->
  length gold_classes = length ys ->
  Forall (fun c => (0 <= c < 2 ^ 63 - 1)%Z) gold_classes ->
  ys !! g = Some y -> best_anchor xs y a ->
  exists classes rcnns (g0 : nat) y0 c0 x,
    bboxes_training anchors gold_classes gold_bboxes thr = Ok (classes, rcnns) /\
    (g0 <= g)%nat /\ ys !! g0 = Some y0 /\ gold_classes !! g0 = Some c0 /\
    xs !! a = Some x /\ best_anchor xs y0 a /\
    (forall g' y', (g' < g0)%nat -> ys !! g' = Some y' -> ~ best_anchor xs y' a) /\
    classes !! a = Some (1 + c0)%Z /\ (0 < 1 + c0)%Z /\
    rcnns !! a = Some (bboxes_to_rcnn x y0).
Proof.
  intros Hxs Hys Hgc Hrange Hy Hbest.
  pose proof (best_anchor_lt _ _ _ Hbest) as Ha.
  assert (Hx_ne : xs <> []) by (intros ->; simpl in Ha; lia).
  assert (Hy_ne : ys <> []) by (intros ->; discriminate).
  destruct (assign_anchors_spec _ _ thr _ _ Hxs Hys Hx_ne Hy_ne)
    as (s1 & s2 & _ & Hs1 & Hrun & Hs2).
  destruct (best_anchor_holder _ _ _ _ _ _ _ _ Hs1 Hs2 Hy Hbest)
    as (g0 & y0 & Hle & Hy0 & Hbest0 & Hmin & Hs).
  destruct (bboxes_training_spec _ gold_classes _ _ _ _ _ Hxs Hys Hgc Hrun)
    as (classes & rcnns & Hret & _ & _ & Hpoint).
  destruct (lookup_lt_is_Some_2 xs a Ha) as [x Hx].
  destruct (lookup_lt_is_Some_2 gold_classes g0) as [c0 Hc0];
    [rewrite Hgc; eapply lookup_lt_Some; exact Hy0 |].
  destruct (Hpoint a x _ Hx Hs) as [_ Hheld].
  destruct (Hheld g0 c0 y0 eq_refl Hc0 Hy0) as [Hcls Hrow].
  pose proof (proj1 (Forall_lookup _ _) Hrange g0 c0 Hc0) as Hc0r. cbv beta in Hc0r.
  rewrite add64_exact in Hcls by lia.
  exists classes, rcnns, g0, y0, c0, x. repeat (split; [assumption |]).
  split; [lia | assumption].
Qed.

(** The witness: the second of the two contested gold boxes; its best anchor
    is anchor 0, which the first gold box (class 3) holds, so the class of
    anchor 0 is 4. *)
Lemma best_anchor_is_trained_witness :
  best_anchor grid_anchors (mkBox 0 4 10 12) 0 /\
  exists classes rcnns,
    bboxes_training grid_tensor [3; 5]%Z contested_tensor (1 / 2) = Ok (classes, rcnns) /\
    classes !! 0%nat = Some 4%Z /\
    rcnns !! 0%nat = Some (bboxes_to_rcnn (mkBox 0 0 10 10) (mkBox 0 0 10 5)).
Proof.
  split; [exact contested_best_anchor_1 |].
  destruct (best_anchor_is_trained grid_tensor [3; 5]%Z contested_tensor (1 / 2)
              grid_anchors contested_golds 1 (mkBox 0 4 10 12) 0)
    as (classes & rcnns & g0 & y0 & c0 & x & Hret & Hle & Hy0 & Hc0 & Hx & _ & Hmin
        & Hcls & _ & Hrow).
  - reflexivity.
  - reflexivity.
  - reflexivity.
  - repeat constructor; lia.
  - reflexivity.
  - exact contested_best_anchor_1.
  - assert (Hg0 : g0 = 0%nat).
    { destruct g0 as [| g0]; [reflexivity |]. exfalso.
      apply (Hmin 0%nat (mkBox 0 0 10 5)); [lia | reflexivity |].
      exact contested_best_anchor_0. }
    subst g0. injection Hy0 as <-. injection Hc0 as <-. injection Hx as <-.
    exists classes, rcnns. split; [exact Hret |]. split; [exact Hcls | exact Hrow].
Defined.

(** X11. Every non-background anchor is justified: if the loops assign
    anchor [a] to gold object [g], then either [a] is the best anchor of
    [g], or [g] is the gold object with maximum IoU against [a] (the smallest
    such index) and that IoU is at least the threshold. *)
Theorem assigned_anchor_is_justified anchors gold_bboxes thr xs ys assigned
    (a g : nat) x y :
  boxes_of anchors = Ok xs -> boxes_of gold_bboxes = Ok ys ->
  assign_anchors anchors gold_bboxes thr = Ok assigned ->
  assigned !! a = Some (Z.of_nat g) ->
  xs !! a = Some x -> ys !! g = Some y ->
  best_anchor xs y a \/
  (best_gold x ys g (bboxes_iou x y) /\ thr <= bboxes_iou x y).
Proof.
  intros Hxs Hys Hrun Hassigned Hx Hy.
  pose proof (lookup_lt_Some _ _ _ Hx) as Ha.
  assert (Hx_ne : xs <> []) by (intros ->; discriminate).
  assert (Hy_ne : ys <> []) by (intros ->; discriminate).
  destruct (assign_anchors_spec _ _ thr _ _ Hxs Hys Hx_ne Hy_ne)
    as (s1 & s2 & _ & Hs1 & Hrun2 & (_ & _ & Hdone)).
  rewrite Hrun in Hrun2. injection Hrun2 as <-.
  destruct (lookup_lt_is_Some_2 s1 a) as [cur Hcur]; [rewrite (proj1 Hs1); exact Ha |].
  destruct (Hdone a x cur Ha Hx Hcur) as (v & Hv & Hheld & Hfree).
  rewrite Hassigned in Hv. injection Hv as <-.
  destruct (decide (cur = (-1)%Z)) as [Hc | Hc].
  - right. destruct (Hfree Hc) as (g' & m & Hbest & Hge & Hlt).
    destruct (Rle_lt_dec thr m) as [Hle | Hgt]; [| specialize (Hlt Hgt); lia].
    apply Hge in Hle as Heq. apply Nat2Z.inj in Heq. subst g'.
    assert (Hm : m = bboxes_iou x y).
    { destruct Hbest as (Hm & _). unfold iou_row in Hm.
      rewrite list_lookup_fmap, Hy in Hm. injection Hm as <-. reflexivity. }
    subst m. split; [exact Hbest | exact Hle].
  - left. rewrite <- (Hheld Hc) in Hcur.
    destruct (pass1_state_held _ _ _ _ _ _ Hs1 Hcur) as (y' & _ & Hy' & Hbest).
    rewrite Hy in Hy'. injection Hy' as <-. exact Hbest.
Qed.

Lemma assigned_anchor_is_justified_witness :
  best_anchor (row_box <$> rows wide_anchor) (mkBox 2 2 8 8) 0 \/
  (best_gold (mkBox 0 0 10 10) (row_box <$> rows wide_gold) 0
     (bboxes_iou (mkBox 0 0 10 10) (mkBox 2 2 8 8)) /\
   1 / 2 <= bboxes_iou (mkBox 0 0 10 10) (mkBox 2 2 8 8)).
Proof.
  apply (assigned_anchor_is_justified wide_anchor wide_gold (1 / 2)
           (row_box <$> rows wide_anchor) (row_box <$> rows wide_gold) [0%Z]);
    reflexivity.
Defined.

(** X12. Lowering the threshold never takes an assignment away: every anchor
    assigned to a gold object under the higher threshold is assigned to the
    same gold object under the lower one. *)
Theorem lower_threshold_keeps_assignments anchors gold_bboxes thr_low thr_high
    assigned_high :
  thr_low <= thr_high ->
  assign_anchors anchors gold_bboxes thr_high = Ok assigned_high ->
  exists assigned_low,
    assign_anchors anchors gold_bboxes thr_low = Ok assigned_low /\
    length assigned_low = length assigned_high /\
    forall (a : nat) v, assigned_high !! a = Some v -> v <> (-1)%Z ->
      assigned_low !! a = Some v.
Proof.
  intros Hthr Hrun.
  destruct (assign_anchors_Ok_boxes _ _ _ _ Hrun) as (xs & ys & Hxs & Hys).
  destruct xs as [| x0 xs], ys as [| y0 ys].
  - rewrite (assign_anchors_boxes _ _ thr_high _ _ Hxs Hys) in Hrun.
    rewrite (assign_anchors_boxes _ _ thr_low _ _ Hxs Hys).
    exists assigned_high. split; [exact Hrun |]. split; [reflexivity | auto].
  - rewrite (assign_anchors_no_anchor _ _ _ _ _ Hxs Hys) in Hrun. discriminate.
  - rewrite (assign_anchors_no_gold _ _ _ _ _ Hxs Hys) in Hrun. discriminate.
  - destruct (assign_anchors_spec _ _ thr_high _ _ Hxs Hys)
      as (s1 & sh & Hp1 & Hs1 & Hrunh & (Hlenh & _ & Hdoneh));
      [discriminate | discriminate |].
    destruct (assign_anchors_spec _ _ thr_low _ _ Hxs Hys)
      as (s1' & sl & Hp1' & _ & Hrunl & (Hlenl & _ & Hdonel));
      [discriminate | discriminate |].
    rewrite Hp1 in Hp1'. injection Hp1' as <-.
    rewrite Hrun in Hrunh. injection Hrunh as <-.
    exists sl. split; [exact Hrunl |]. split; [congruence |].
    intros a v Hv Hne.
    assert (Ha : (a < length (x0 :: xs))%nat)
      by (rewrite <- Hlenh; eapply lookup_lt_Some; exact Hv).
    destruct (lookup_lt_is_Some_2 (x0 :: xs) a Ha) as [x Hx].
    destruct (lookup_lt_is_Some_2 s1 a) as [cur Hcur]; [rewrite (proj1 Hs1); exact Ha |].
    destruct (Hdoneh a x cur Ha Hx Hcur) as (vh & Hvh & Hheldh & Hfreeh).
    destruct (Hdonel a x cur Ha Hx Hcur) as (vl & Hvl & Hheldl & Hfreel).
    rewrite Hv in Hvh. injection Hvh as <-. rewrite Hvl. f_equal.
    destruct (decide (cur = (-1)%Z)) as [Hc | Hc].
    + destruct (Hfreeh Hc) as (gh & mh & Hbh & Hgeh & Hlth).
      destruct (Hfreel Hc) as (gl & ml & Hbl & Hgel & _).
      destruct (first_max_unique _ _ _ _ _ Hbh Hbl) as [<- <-].
      destruct (Rle_lt_dec thr_high mh) as [Hle | Hgt].
      * rewrite (Hgeh Hle). apply Hgel. lra.
      * exfalso. exact (Hne (Hlth Hgt)).
    + rewrite (Hheldh Hc). exact (Hheldl Hc).
Qed.

Lemma lower_threshold_keeps_assignments_witness :
  exists assigned_low,
    assign_anchors wide_anchor wide_gold (1 / 4) = Ok assigned_low /\
    assigned_low !! 0%nat = Some 0%Z.
Proof.
  destruct (lower_threshold_keeps_assignments wide_anchor wide_gold (1 / 4) (1 / 2) [0%Z])
    as (assigned_low & Hrun & _ & Hkeep).
  - lra.
  - exact wide_assign_anchors.
  - exists assigned_low. split; [exact Hrun |]. apply Hkeep; [reflexivity | lia].
Defined.

(** X13. With a threshold above 1 and gold boxes of positive area the second
    loop assigns nothing: the loops return what the first loop returned, so an
    anchor is assigned to a gold object only if it is its best anchor. *)
Theorem threshold_above_one_keeps_pass1 anchors gold_bboxes thr xs ys :
  boxes_of anchors = Ok xs -> boxes_of gold_bboxes = Ok ys ->
  xs <> [] -> ys <> [] ->
  Forall (fun y => 0 < bboxes_area y) ys ->
  1 < thr ->
  exists assigned,
    pass1 (iou_table xs ys) (length ys) (replicate (length xs) (-1)%Z) = Ok assigned /\
    assign_anchors anchors gold_bboxes thr = Ok assigned /\
    forall (a g : nat), assigned !! a = Some (Z.of_nat g) ->
      exists y, ys !! g = Some y /\ best_anchor xs y a.
Proof.
  intros Hxs Hys Hx_ne Hy_ne Hpos Hthr.
  destruct (assign_anchors_spec _ _ thr _ _ Hxs Hys Hx_ne Hy_ne)
    as (s1 & s2 & Hp1 & Hs1 & Hrun & (Hlen2 & _ & Hdone)).
  assert (Heq : s2 = s1).
  { apply list_eq. intros a.
    destruct (decide (a < length xs)%nat) as [Ha | Ha].
    - destruct (lookup_lt_is_Some_2 xs a Ha) as [x Hx].
      destruct (lookup_lt_is_Some_2 s1 a) as [cur Hcur]; [rewrite (proj1 Hs1); exact Ha |].
      destruct (Hdone a x cur Ha Hx Hcur) as (v & Hv & Hheld & Hfree).
      rewrite Hv, Hcur. f_equal.
      destruct (decide (cur = (-1)%Z)) as [Hc | Hc]; [| exact (Hheld Hc)].
      destruct (Hfree Hc) as (g & m & (Hm & _) & _ & Hlt).
      rewrite Hc. apply Hlt.
      unfold iou_row in Hm. apply list_lookup_fmap_Some in Hm as (y & -> & Hy).
      pose proof (proj1 (Forall_lookup _ _) Hpos g y Hy) as Hy_pos. cbv beta in Hy_pos.
      pose proof (bboxes_iou_range_r x y Hy_pos). lra.
    - rewrite !lookup_ge_None_2; [reflexivity | rewrite (proj1 Hs1); lia | lia]. }
  subst s2. exists s1. split; [exact Hp1 |]. split; [exact Hrun |].
  intros a g Hs.
  destruct (pass1_state_held _ _ _ _ _ _ Hs1 Hs) as (y & _ & Hy & Hbest).
  exists y. split; [exact Hy | exact Hbest].
Qed.

Lemma threshold_above_one_keeps_pass1_witness :
  exists assigned,
    pass1 (iou_table grid_anchors contested_golds) 2 (replicate 4 (-1)%Z) = Ok assigned /\
    assign_anchors grid_tensor (mkTensor 4 [[0; 0; 10; 5]; [0; 4; 10; 12]]) 2
    = Ok assigned.
Proof.
  destruct (threshold_above_one_keeps_pass1 grid_tensor
              (mkTensor 4 [[0; 0; 10; 5]; [0; 4; 10; 12]]) 2
              grid_anchors contested_golds)
    as (assigned & Hp1 & Hrun & _).
  - reflexivity.
  - reflexivity.
  - discriminate.
  - discriminate.
  - repeat constructor; apply positive_size_area; unfold positive_size; simpl; lra.
  - lra.
  - exists assigned. split; [exact Hp1 | exact Hrun].
Defined.

(** X14. With no anchor and at least one gold box the call raises, for every
    threshold and class tensor: the first loop takes [torch.argmax] of an
    empty column. *)
Theorem no_anchor_call_raises anchors gold_classes gold_bboxes thr :
  (4 <= last_dim anchors)%nat -> (4 <= last_dim gold_bboxes)%nat ->
  rows anchors = [] -> rows gold_bboxes <> [] ->
  bboxes_training anchors gold_classes gold_bboxes thr = Raise EmptyReduction.
Proof.
  intros Ha Hg Hrows Hgold. unfold bboxes_training.
  destruct (rows gold_bboxes) as [| r rs] eqn:E; [congruence |].
  rewrite (assign_anchors_no_anchor anchors gold_bboxes thr (row_box r) (row_box <$> rs)).
  - reflexivity.
  - rewrite (boxes_of_ok _ Ha), Hrows. reflexivity.
  - rewrite (boxes_of_ok _ Hg), E. reflexivity.
Qed.

Lemma no_anchor_call_raises_witness :
  bboxes_training (mkTensor 4 []) [3%Z] wide_gold (1 / 2) = Raise EmptyReduction.
Proof.
  apply no_anchor_call_raises; simpl; [lia | lia | reflexivity | discriminate].
Defined.

Lemma index_z_cases {A} (l : list A) i :
  (exists x, index_z l i = Ok x) \/ index_z l i = Raise IndexError.
Proof.
  unfold index_z, index. repeat case_decide;
    try (destruct (l !! _); [left; eexists; reflexivity | right; reflexivity]).
  right. reflexivity.
Qed.

Lemma index_z_beyond {A} (l : list A) (g : nat) :
  (length l <= g)%nat -> index_z l (Z.of_nat g) = Raise IndexError.
Proof.
  intros Hg. unfold index_z. rewrite !decide_False by lia. reflexivity.
Qed.

Lemma gather_raises {A} (src : list A) idx v :
  v ∈ idx -> index_z src v = Raise IndexError -> gather src idx = Raise IndexError.
Proof.
  intros Hin Hv. unfold gather. induction idx as [| i idx IH]; [inversion Hin |].
  simpl. destruct (index_z_cases src i) as [[x Hx] | Hx]; rewrite Hx; [| reflexivity].
  rewrite bind_Ok_l. apply elem_of_cons in Hin as [-> | Hin]; [congruence |].
  rewrite (IH Hin). reflexivity.
Qed.

Lemma masked_select_lookup {A} (p : A -> bool) (l : list A) (a : nat) x :
  l !! a = Some x -> p x = true -> x ∈ masked_select l (p <$> l).
Proof.
  revert a. induction l as [| y l IH]; intros a Hx Hp; [discriminate |].
  rewrite fmap_cons. simpl. destruct a as [| a]; simpl in Hx.
  - injection Hx as ->. rewrite Hp. left.
  - destruct (p y); [right |]; exact (IH a Hx Hp).
Qed.

Lemma any_true_lookup (mask : list bool) (a : nat) :
  mask !! a = Some true -> any mask = true.
Proof.
  unfold any. revert a. induction mask as [| b mask IH]; intros a Ha; [discriminate |].
  simpl. destruct a as [| a]; simpl in Ha.
  - injection Ha as ->. reflexivity.
  - rewrite (IH a Ha). apply orb_true_r.
Qed.

(** X21. Background anchors, characterised: after both loops an anchor is
    left unassigned exactly when it is the best anchor of no gold object and
    its IoU with every gold object is below the threshold. *)
Theorem background_iff_no_claim anchors gold_bboxes thr xs ys assigned (a : nat) x :
  boxes_of anchors = Ok xs -> boxes_of gold_bboxes = Ok ys ->
  assign_anchors anchors gold_bboxes thr = Ok assigned ->
  xs !! a = Some x -> ys <> [] ->
  assigned !! a = Some (-1)%Z <->
  (forall y, y ∈ ys -> ~ best_anchor xs y a) /\
  (forall y, y ∈ ys -> bboxes_iou x y < thr).
Proof.
  intros Hxs Hys Hrun Hx Hy_ne.
  pose proof (lookup_lt_Some _ _ _ Hx) as Ha.
  assert (Hx_ne : xs <> []) by (intros ->; discriminate).
  destruct (assign_anchors_spec _ _ thr _ _ Hxs Hys Hx_ne Hy_ne)
    as (s1 & s2 & _ & Hs1 & Hrun2 & (_ & _ & Hdone)).
  rewrite Hrun in Hrun2. injection Hrun2 as <-.
  destruct (lookup_lt_is_Some_2 s1 a) as [cur Hcur]; [rewrite (proj1 Hs1); exact Ha |].
  destruct (Hdone a x cur Ha Hx Hcur) as (v & Hv & Hheld & Hfree).
  pose proof (pass1_state_free _ _ _ _ a Hs1 Ha) as Hfree1.
  assert (Hnone : (forall y, y ∈ ys -> ~ best_anchor xs y a) <->
                  (forall g y, (g < length ys)%nat -> ys !! g = Some y ->
                     ~ best_anchor xs y a)).
  { split.
    - intros H g y _ Hy. apply H. apply list_elem_of_lookup. exists g. exact Hy.
    - intros H y Hy. apply list_elem_of_lookup in Hy as [g Hy].
      apply (H g y); [eapply lookup_lt_Some; exact Hy | exact Hy]. }
  rewrite Hv, Hnone, <- Hfree1, Hcur. split.
  - intros Hback. injection Hback as ->.
    destruct (decide (cur = (-1)%Z)) as [Hc | Hc]; [| specialize (Hheld Hc); congruence].
    split; [rewrite Hc; reflexivity |].
    destruct (Hfree Hc) as (g & m & (_ & Hmax & _) & Hge & _).
    assert (Hm : m < thr).
    { destruct (Rle_lt_dec thr m) as [Hle | Hgt]; [specialize (Hge Hle); lia | exact Hgt]. }
    intros y Hy. apply list_elem_of_lookup in Hy as [g' Hy].
    assert (Hle : bboxes_iou x y <= m).
    { apply (Hmax g'). unfold iou_row. rewrite list_lookup_fmap, Hy. reflexivity. }
    lra.
  - intros [Hc Hlow]. injection Hc as Hc.
    destruct (Hfree Hc) as (g & m & (Hm & _) & _ & Hlt).
    unfold iou_row in Hm. apply list_lookup_fmap_Some in Hm as (y & -> & Hy).
    rewrite Hlt; [reflexivity |]. apply Hlow. apply list_elem_of_lookup. exists g. exact Hy.
Qed.

Lemma background_iff_no_claim_witness :
  [0%Z] !! 0%nat = Some (-1)%Z <->
  (forall y, y ∈ row_box <$> rows wide_gold ->
     ~ best_anchor (row_box <$> rows wide_anchor) y 0) /\
  (forall y, y ∈ row_box <$> rows wide_gold -> bboxes_iou (mkBox 0 0 10 10) y < 1 / 2).
Proof.
  apply (background_iff_no_claim wide_anchor wide_gold (1 / 2)
           (row_box <$> rows wide_anchor) (row_box <$> rows wide_gold) [0%Z] 0
           (mkBox 0 0 10 10)).
  - reflexivity.
  - reflexivity.
  - exact wide_assign_anchors.
  - reflexivity.
  - discriminate.
Defined.

(** X15. A class tensor that is too short is an index error: if the loops
    assign some anchor to gold index [g] and [gold_classes] has no entry
    [g], the call raises on [gold_classes[gold_idx]]. *)
Theorem missing_gold_class_raises anchors gold_classes gold_bboxes thr assigned
    (a g : nat) :
  assign_anchors anchors gold_bboxes thr = Ok assigned ->
  assigned !! a = Some (Z.of_nat g) ->
  (length gold_classes <= g)%nat ->
  bboxes_training anchors gold_classes gold_bboxes thr = Raise IndexError.
Proof.
  intros Hrun Ha Hg. unfold bboxes_training. rewrite Hrun, bind_Ok_l.
  unfold materialize.
  set (test := fun v : Z => bool_decide (v <> (-1)%Z)).
  assert (Hbit : test (Z.of_nat g) = true)
    by (unfold test; apply bool_decide_eq_true_2; lia).
  rewrite (any_true_lookup (test <$> assigned) a)
    by (rewrite list_lookup_fmap, Ha; simpl; rewrite Hbit; reflexivity).
  rewrite (gather_raises gold_classes _ (Z.of_nat g)).
  - reflexivity.
  - exact (masked_select_lookup test assigned a _ Ha Hbit).
  - apply index_z_beyond. exact Hg.
Qed.

Lemma missing_gold_class_raises_witness :
  bboxes_training wide_anchor [] wide_gold (1 / 2) = Raise IndexError.
Proof.
  apply (missing_gold_class_raises wide_anchor [] wide_gold (1 / 2) [0%Z] 0 0).
  - exact wide_assign_anchors.
  - reflexivity.
  - simpl. lia.
Defined.

(** X16. With gold classes that are non-negative 64-bit integers below the
    largest one, class 0 marks exactly the anchors the loops left
    unassigned, and their regression row is (0, 0, 0, 0). *)
Theorem background_class_iff_unassigned anchors gold_classes gold_bboxes thr
    xs ys assigned :
  boxes_of anchors = Ok xs -> boxes_of gold_bboxes = Ok ys ->
  length gold_classes = length ys ->
  Forall (fun c => (0 <= c < 2 ^ 63 - 1)%Z) gold_classes ->
  assign_anchors anchors gold_bboxes thr = Ok assigned ->
  exists classes rcnns,
    bboxes_training anchors gold_classes gold_bboxes thr = Ok (classes, rcnns) /\
    forall a : nat, (a < length xs)%nat ->
      (classes !! a = Some 0%Z <-> assigned !! a = Some (-1)%Z) /\
      (classes !! a = Some 0%Z -> rcnns !! a = Some zero_rcnn) /\
      (exists c, classes !! a = Some c /\ (0 <= c)%Z).
Proof.
  intros Hxs Hys Hgc Hclasses Hrun.
  destruct (assign_anchors_Ok _ _ _ _ _ _ Hxs Hys Hrun) as [Hlen Hentries].
  destruct (bboxes_training_spec _ _ _ _ _ _ _ Hxs Hys Hgc Hrun)
    as (classes & rcnns & Hret & _ & _ & Hpoint).
  exists classes, rcnns. split; [exact Hret |].
  intros a Ha.
  destruct (lookup_lt_is_Some_2 xs a Ha) as [x Hx].
  destruct (lookup_lt_is_Some_2 assigned a) as [v Hv]; [lia |].
  destruct (Hpoint a x v Hx Hv) as [Hfree Hheld].
  destruct (proj1 (Forall_lookup _ _) Hentries a v Hv) as [-> | Hr].
  - destruct (Hfree eq_refl) as [Hcls Hrow]. rewrite Hcls, Hv.
    split; [split; reflexivity |]. split; [intros _; exact Hrow |].
    exists 0%Z. split; [reflexivity | lia].
  - destruct (lookup_lt_is_Some_2 gold_classes (Z.to_nat v)) as [c Hc]; [lia |].
    destruct (lookup_lt_is_Some_2 ys (Z.to_nat v)) as [y Hy]; [lia |].
    destruct (Hheld (Z.to_nat v) c y) as [Hcls _]; [lia | exact Hc | exact Hy |].
    pose proof (proj1 (Forall_lookup _ _) Hclasses _ c Hc) as Hcr. cbv beta in Hcr.
    rewrite add64_exact in Hcls by lia. rewrite Hcls, Hv.
    split; [split; intros H; injection H as H; lia |].
    split; [intros H; injection H as H; lia |].
    exists (1 + c)%Z. split; [reflexivity | lia].
Qed.

Lemma background_class_iff_unassigned_witness :
  exists classes rcnns,
    bboxes_training wide_anchor [3%Z] wide_gold (1 / 2) = Ok (classes, rcnns) /\
    (classes !! 0%nat = Some 0%Z <-> [0%Z] !! 0%nat = Some (-1)%Z).
Proof.
  destruct (background_class_iff_unassigned wide_anchor [3%Z] wide_gold (1 / 2)
              (row_box <$> rows wide_anchor) (row_box <$> rows wide_gold) [0%Z])
    as (classes & rcnns & Hret & Hpoint).
  - reflexivity.
  - reflexivity.
  - reflexivity.
  - constructor; [lia | constructor].
  - exact wide_assign_anchors.
  - exists classes, rcnns. split; [exact Hret |].
    apply (Hpoint 0%nat). simpl. lia.
Defined.

End TrainingMore.

(** * Batches: padding and its removal *)

Section Collate.

Context {Image Images : Type} (stack_images : list Image -> option Images).

Lemma foldl_max_spec l : forall x,
  (x <= foldl Nat.max x l)%nat /\
  (forall n, n ∈ l -> (n <= foldl Nat.max x l)%nat) /\
  (foldl Nat.max x l = x \/ foldl Nat.max x l ∈ l).
Proof.
  induction l as [| y l IH]; intros x; simpl.
  - split; [lia |]. split; [intros n Hn; inversion Hn | left; reflexivity].
  - destruct (IH (Nat.max x y)) as (Hx & Hall & Hin). split; [lia |]. split.
    + intros n Hn. apply elem_of_cons in Hn as [-> | Hn]; [lia | exact (Hall n Hn)].
    + destruct Hin as [Heq | Hin]; [| right; right; exact Hin].
      rewrite Heq. destruct (Nat.max_spec x y) as [[_ ->] | [_ ->]];
        [right; left | left; reflexivity].
Qed.

(** [max(lengths)] is an upper bound of the lengths and one of them. *)
Lemma py_max_spec l m :
  py_max l = Some m -> (forall n, n ∈ l -> (n <= m)%nat) /\ m ∈ l.
Proof.
  destruct l as [| x l]; [discriminate |]. simpl. intros H. injection H as <-.
  destruct (foldl_max_spec l x) as (Hx & Hall & Hin). split.
  - intros n Hn. apply elem_of_cons in Hn as [-> | Hn]; [exact Hx | exact (Hall n Hn)].
  - destruct Hin as [-> | Hin]; [left | right; exact Hin].
Qed.

Lemma py_max_Some l : l <> [] -> exists m, py_max l = Some m.
Proof. destruct l; [congruence | intros _; eexists; reflexivity]. Qed.

(** What the loop body returns for an item with as many boxes as classes, in
    a tensor of last dimension 4. *)
Lemma pad_item_spec max_len cls bboxes :
  (length cls <= max_len)%nat ->
  last_dim bboxes = 4%nat ->
  pad_item max_len cls bboxes
  = Some (cls ++ replicate (max_len - length cls) (-1)%Z,
          mkTensor 4 (rows bboxes ++ replicate (max_len - length cls) [0; 0; 0; 0])).
Proof.
  intros Hle Hd. unfold pad_item, cat_rows. destruct bboxes as [d rs]. simpl in *. subst d.
  destruct (decide (length cls < max_len)%nat) as [Hlt | Hge].
  - rewrite decide_True by reflexivity. reflexivity.
  - replace (max_len - length cls)%nat with 0%nat by lia. simpl.
    rewrite !app_nil_r. reflexivity.
Qed.

Lemma mapM_Some_fmap {A B} (f : A -> option B) (g : A -> B) (l : list A) :
  (forall x, x ∈ l -> f x = Some (g x)) -> mapM f l = Some (g <$> l).
Proof.
  induction l as [| x l IH]; intros Hf; simpl; [reflexivity |].
  rewrite (Hf x) by left. simpl.
  rewrite IH by (intros y Hy; apply Hf; right; exact Hy). reflexivity.
Qed.

Lemma stack_uniform {A Shape} `{EqDecision Shape} (shape : A -> Shape) (l : list A) s :
  l <> [] -> (forall y, y ∈ l -> shape y = s) -> stack shape l = Some l.
Proof.
  destruct l as [| x l]; [congruence | intros _ Hall]. unfold stack.
  replace (forallb (fun y => bool_decide (shape y = shape x)) l) with true; [reflexivity |].
  symmetry. apply forallb_forall. intros y Hy. apply bool_decide_eq_true_2.
  rewrite (Hall x) by left. apply Hall. right. apply list_elem_of_In. exact Hy.
Qed.

(** The batch [custom_collate] returns when every item has as many boxes as
    classes, in a tensor of last dimension 4. *)
Lemma custom_collate_spec (batch : list (labelled Image)) images :
  stack_images (l_image <$> batch) = Some images ->
  batch <> [] ->
  Forall (fun item => last_dim (l_bboxes item) = 4%nat /\
                      length (rows (l_bboxes item)) = length (l_classes item)) batch ->
  exists max_len,
    py_max ((fun item => length (l_classes item)) <$> batch) = Some max_len /\
    custom_collate stack_images batch
    = Some (images,
            ((fun item => l_classes item
                          ++ replicate (max_len - length (l_classes item)) (-1)%Z) <$> batch,
             (fun item => mkTensor 4
                            (rows (l_bboxes item)
                             ++ replicate (max_len - length (l_classes item)) [0; 0; 0; 0]))
               <$> batch)).
Proof.
  intros Himages Hne Hitems.
  destruct (py_max_Some ((fun item => length (l_classes item)) <$> batch))
    as [max_len Hmax]; [destruct batch; [congruence | discriminate] |].
  exists max_len. split; [exact Hmax |].
  destruct (py_max_spec _ _ Hmax) as [Hbound _].
  unfold custom_collate. rewrite Himages. simpl. rewrite Hmax. simpl.
  rewrite (mapM_Some_fmap _
             (fun item => (l_classes item
                           ++ replicate (max_len - length (l_classes item)) (-1)%Z,
                           mkTensor 4
                             (rows (l_bboxes item)
                              ++ replicate (max_len - length (l_classes item))
                                   [0; 0; 0; 0])))).
  2:{ intros item Hitem. apply pad_item_spec.
      - apply Hbound. apply list_elem_of_fmap. exists item. split; [reflexivity | exact Hitem].
      - exact (proj1 (proj1 (list.Forall_forall _ _) Hitems item Hitem)). }
  simpl. rewrite <- !list_fmap_compose.
  rewrite (stack_uniform length _ max_len).
  2:{ destruct batch; [congruence | discriminate]. }
  2:{ intros c Hc. apply list_elem_of_fmap in Hc as (item & -> & Hitem). simpl.
      rewrite length_app, length_replicate.
      assert ((length (l_classes item) <= max_len)%nat); [| lia].
      apply Hbound. apply list_elem_of_fmap. exists item. split; [reflexivity | exact Hitem]. }
  simpl. rewrite (stack_uniform tensor_shape _ (max_len, 4%nat)).
  2:{ destruct batch; [congruence | discriminate]. }
  2:{ intros t Ht. apply list_elem_of_fmap in Ht as (item & -> & Hitem).
      unfold tensor_shape. simpl. f_equal.
      rewrite length_app, length_replicate.
      rewrite (proj2 (proj1 (list.Forall_forall _ _) Hitems item Hitem)).
      assert ((length (l_classes item) <= max_len)%nat); [| lia].
      apply Hbound. apply list_elem_of_fmap. exists item. split; [reflexivity | exact Hitem]. }
  reflexivity.
Qed.

Lemma masked_select_app {A} (l1 : list A) : forall (l2 : list A) (m1 m2 : list bool),
  length l1 = length m1 ->
  masked_select (l1 ++ l2) (m1 ++ m2) = masked_select l1 m1 ++ masked_select l2 m2.
Proof.
  induction l1 as [| x l1 IH]; intros l2 [| b m1] m2 Hlen; try discriminate.
  - simpl. destruct l2; reflexivity.
  - simpl in *. destruct b; simpl; rewrite IH by lia; reflexivity.
Qed.

Lemma masked_select_all {A} (l : list A) : forall m : list bool,
  length l = length m -> Forall (fun b => b = true) m -> masked_select l m = l.
Proof.
  induction l as [| x l IH]; intros [| b m] Hlen Hall; try discriminate; [reflexivity |].
  inversion Hall as [| ? ? -> Hall']; subst. simpl. rewrite IH; [reflexivity | simpl in Hlen; lia | exact Hall'].
Qed.

Lemma masked_select_none {A} (l : list A) : forall k,
  masked_select l (replicate k false) = [].
Proof.
  induction l as [| x l IH]; intros [| k]; simpl; try reflexivity. apply IH.
Qed.

(** Removing the padding of one padded item. *)
Lemma valid_gold_padded cls (bboxes : tensor) k :
  Forall (fun c => c <> (-1)%Z) cls ->
  last_dim bboxes = 4%nat -> length (rows bboxes) = length cls ->
  valid_gold (cls ++ replicate k (-1)%Z)
             (mkTensor 4 (rows bboxes ++ replicate k [0; 0; 0; 0]))
  = Some (cls, bboxes).
Proof.
  intros Hcls Hd Hrows. unfold valid_gold. simpl.
  set (test := fun c : Z => bool_decide (c <> (-1)%Z)).
  assert (Hmask : test <$> (cls ++ replicate k (-1)%Z)
                  = (test <$> cls) ++ replicate k false).
  { rewrite fmap_app, fmap_replicate. reflexivity. }
  rewrite Hmask.
  assert (Htrue : Forall (fun b => b = true) (test <$> cls)).
  { apply Forall_fmap, list.Forall_forall. intros c Hc. simpl.
    unfold test. apply bool_decide_eq_true_2.
    exact (proj1 (list.Forall_forall _ _) Hcls c Hc). }
  rewrite decide_True
    by (rewrite !length_app, !length_replicate, length_fmap; lia).
  rewrite !masked_select_app by (rewrite length_fmap; lia).
  rewrite !masked_select_none, !app_nil_r.
  rewrite !masked_select_all by (try exact Htrue; rewrite length_fmap; lia).
  destruct bboxes as [d rs]. simpl in Hd. subst d. reflexivity.
Qed.

(** X17. [custom_collate] pads to the longest item: when the images stack
    and every item of a non-empty batch has as many boxes as classes, in a
    tensor of last dimension 4, the call returns; every row of the padded
    classes has the length of the longest class list of the batch, every
    padded box tensor has that many rows of 4 entries, and item [i] of the
    result is item [i] of the batch followed by classes -1 and boxes
    (0, 0, 0, 0). *)
Theorem custom_collate_pads_to_longest (batch : list (labelled Image)) images :
  stack_images (l_image <$> batch) = Some images ->
  batch <> [] ->
  Forall (fun item => last_dim (l_bboxes item) = 4%nat /\
                      length (rows (l_bboxes item)) = length (l_classes item)) batch ->
  exists max_len padded_classes padded_bboxes,
    custom_collate stack_images batch = Some (images, (padded_classes, padded_bboxes)) /\
    (forall item, item ∈ batch -> (length (l_classes item) <= max_len)%nat) /\
    (exists item, item ∈ batch /\ length (l_classes item) = max_len) /\
    length padded_classes = length batch /\ length padded_bboxes = length batch /\
    Forall (fun c => length c = max_len) padded_classes /\
    Forall (fun t => tensor_shape t = (max_len, 4%nat)) padded_bboxes /\
    forall (i : nat) item, batch !! i = Some item ->
      padded_classes !! i
      = Some (l_classes item ++ replicate (max_len - length (l_classes item)) (-1)%Z) /\
      padded_bboxes !! i
      = Some (mkTensor 4 (rows (l_bboxes item)
                          ++ replicate (max_len - length (l_classes item)) [0; 0; 0; 0])).
Proof.
  intros Himages Hne Hitems.
  destruct (custom_collate_spec batch images Himages Hne Hitems) as (max_len & Hmax & Hret).
  destruct (py_max_spec _ _ Hmax) as [Hbound Hin].
  assert (Hle : forall item, item ∈ batch -> (length (l_classes item) <= max_len)%nat).
  { intros item Hitem. apply Hbound. apply list_elem_of_fmap.
    exists item. split; [reflexivity | exact Hitem]. }
  eexists max_len, _, _. split; [exact Hret |]. split; [exact Hle |]. split.
  { apply list_elem_of_fmap in Hin as (item & Heq & Hitem). exists item.
    split; [exact Hitem | symmetry; exact Heq]. }
  rewrite !length_fmap. split; [reflexivity |]. split; [reflexivity |]. split; [| split].
  - apply Forall_fmap, list.Forall_forall. intros item Hitem. simpl.
    rewrite length_app, length_replicate. specialize (Hle item Hitem). lia.
  - apply Forall_fmap, list.Forall_forall. intros item Hitem.
    unfold tensor_shape. simpl. f_equal.
    rewrite length_app, length_replicate.
    rewrite (proj2 (proj1 (list.Forall_forall _ _) Hitems item Hitem)).
    specialize (Hle item Hitem). lia.
  - intros i item Hi. rewrite !list_lookup_fmap, Hi. split; reflexivity.
Qed.

(** X18. Padding and its removal compose to the identity: for every item of
    a batch as in X17 whose classes are all different from -1, the lines of
    [compute_loss] that drop the entries of class -1 give back, from item
    [i] of what [custom_collate] returned, the classes and the boxes of item
    [i] of the batch. *)
Theorem collate_then_valid_gold (batch : list (labelled Image)) images (i : nat) item :
  stack_images (l_image <$> batch) = Some images ->
  Forall (fun item => last_dim (l_bboxes item) = 4%nat /\
                      length (rows (l_bboxes item)) = length (l_classes item)) batch ->
  batch !! i = Some item ->
  Forall (fun c => c <> (-1)%Z) (l_classes item) ->
  exists padded_classes padded_bboxes cls bboxes,
    custom_collate stack_images batch = Some (images, (padded_classes, padded_bboxes)) /\
    padded_classes !! i = Some cls /\ padded_bboxes !! i = Some bboxes /\
    valid_gold cls bboxes = Some (l_classes item, l_bboxes item).
Proof.
  intros Himages Hitems Hi Hcls.
  assert (Hne : batch <> []) by (intros ->; discriminate).
  destruct (custom_collate_spec batch images Himages Hne Hitems) as (max_len & _ & Hret).
  destruct (proj1 (Forall_lookup _ _) Hitems i item Hi) as [Hd Hrows].
  eexists _, _, _, _. split; [exact Hret |].
  rewrite !list_lookup_fmap, Hi. split; [reflexivity |]. split; [reflexivity |].
  apply valid_gold_padded; assumption.
Qed.

End Collate.

Lemma custom_collate_pads_to_longest_witness :
  exists max_len padded_classes padded_bboxes,
    custom_collate (fun images : list nat => Some images)
      [mkLabelled 7%nat [3; 5]%Z (mkTensor 4 [[0; 0; 10; 10]; [2; 2; 8; 8]]);
       mkLabelled 8%nat [1%Z] (mkTensor 4 [[0; 0; 20; 20]])]
    = Some ([7; 8]%nat, (padded_classes, padded_bboxes)) /\
    length padded_classes = 2%nat /\
    Forall (fun c => length c = max_len) padded_classes.
Proof.
  destruct (custom_collate_pads_to_longest (fun images : list nat => Some images)
              [mkLabelled 7%nat [3; 5]%Z (mkTensor 4 [[0; 0; 10; 10]; [2; 2; 8; 8]]);
               mkLabelled 8%nat [1%Z] (mkTensor 4 [[0; 0; 20; 20]])]
              [7; 8]%nat)
    as (max_len & pc & pb & Hret & _ & _ & Hlen & _ & Hrows & _).
  - reflexivity.
  - discriminate.
  - repeat constructor.
  - exists max_len, pc, pb. split; [exact Hret |]. split; [exact Hlen | exact Hrows].
Defined.

Lemma collate_then_valid_gold_witness :
  exists padded_classes padded_bboxes cls bboxes,
    custom_collate (fun images : list nat => Some images)
      [mkLabelled 7%nat [3; 5]%Z (mkTensor 4 [[0; 0; 10; 10]; [2; 2; 8; 8]]);
       mkLabelled 8%nat [1%Z] (mkTensor 4 [[0; 0; 20; 20]])]
    = Some ([7; 8]%nat, (padded_classes, padded_bboxes)) /\
    padded_classes !! 1%nat = Some cls /\ padded_bboxes !! 1%nat = Some bboxes /\
    valid_gold cls bboxes = Some ([1%Z], mkTensor 4 [[0; 0; 20; 20]]).
Proof.
  apply (collate_then_valid_gold (fun images : list nat => Some images)
           [mkLabelled 7%nat [3; 5]%Z (mkTensor 4 [[0; 0; 10; 10]; [2; 2; 8; 8]]);
            mkLabelled 8%nat [1%Z] (mkTensor 4 [[0; 0; 20; 20]])]
           [7; 8]%nat 1 (mkLabelled 8%nat [1%Z] (mkTensor 4 [[0; 0; 20; 20]]))).
  - reflexivity.
  - repeat constructor.
  - reflexivity.
  - repeat constructor; lia.
Defined.

(** * Grids of anchors *)

Section Grids.

Lemma concat_uniform_length {A} (ll : list (list A)) n :
  Forall (fun l => length l = n) ll -> length (concat ll) = (length ll * n)%nat.
Proof.
  induction 1 as [| l ll Hl _ IH]; simpl; [reflexivity |].
  rewrite length_app, IH, Hl. reflexivity.
Qed.

(** Row-major indexing of a list of rows of the same length. *)
Lemma concat_uniform_lookup {A} (ll : list (list A)) n : forall (i j : nat) l x,
  Forall (fun l => length l = n) ll ->
  ll !! i = Some l -> l !! j = Some x -> concat ll !! (i * n + j)%nat = Some x.
Proof.
  induction ll as [| l0 ll IH]; intros i j l x Hall Hi Hj; [discriminate |].
  inversion Hall as [| ? ? Hl0 Hall']; subst.
  destruct i as [| i]; simpl in Hi |- *.
  - injection Hi as ->. rewrite lookup_app_l by (eapply lookup_lt_Some; exact Hj).
    exact Hj.
  - rewrite lookup_app_r by lia.
    replace (length l0 + i * length l0 + j - length l0)%nat
      with (i * length l0 + j)%nat by lia.
    exact (IH i j l x Hall' Hi Hj).
Qed.

Lemma cell_centres_length n stride : length (cell_centres n stride) = n.
Proof. unfold cell_centres. rewrite length_fmap, length_seq. reflexivity. Qed.

Lemma cell_centres_lookup n stride (i : nat) :
  (i < n)%nat -> cell_centres n stride !! i = Some ((INR i + 1 / 2) * stride).
Proof.
  intros Hi. unfold cell_centres.
  rewrite list_lookup_fmap, lookup_seq_lt by exact Hi. reflexivity.
Qed.

Lemma grid_of_rows half_h half_w ys xs :
  Forall (fun l : list Box => length l = length xs)
    ((fun grid_y =>
        (fun grid_x => mkBox (grid_y - half_h) (grid_x - half_w)
                             (grid_y + half_h) (grid_x + half_w)) <$> xs) <$> ys).
Proof.
  apply Forall_fmap, list.Forall_forall. intros gy _. simpl. apply length_fmap.
Qed.

Lemma grid_of_length half_h half_w ys xs :
  length (grid_of half_h half_w ys xs) = (length ys * length xs)%nat.
Proof.
  unfold grid_of. rewrite (concat_uniform_length _ _ (grid_of_rows half_h half_w ys xs)).
  rewrite length_fmap. reflexivity.
Qed.

Lemma grid_of_lookup half_h half_w ys xs (i j : nat) grid_y grid_x :
  ys !! i = Some grid_y -> xs !! j = Some grid_x ->
  grid_of half_h half_w ys xs !! (i * length xs + j)%nat
  = Some (mkBox (grid_y - half_h) (grid_x - half_w) (grid_y + half_h) (grid_x + half_w)).
Proof.
  intros Hi Hj. unfold grid_of.
  eapply concat_uniform_lookup; [apply grid_of_rows | |].
  - rewrite list_lookup_fmap, Hi. reflexivity.
  - rewrite list_lookup_fmap, Hj. reflexivity.
Qed.

(** Every position of the grid is a cell. *)
Lemma grid_of_lookup_inv half_h half_w ys xs (k : nat) b :
  grid_of half_h half_w ys xs !! k = Some b ->
  exists (i j : nat) grid_y grid_x,
    k = (i * length xs + j)%nat /\ ys !! i = Some grid_y /\ xs !! j = Some grid_x /\
    b = mkBox (grid_y - half_h) (grid_x - half_w) (grid_y + half_h) (grid_x + half_w).
Proof.
  intros Hk. pose proof (lookup_lt_Some _ _ _ Hk) as Hlt.
  rewrite grid_of_length in Hlt.
  assert (Hxs : (0 < length xs)%nat) by (destruct (length xs); lia).
  assert (Hi : (k / length xs < length ys)%nat)
    by (apply Nat.Div0.div_lt_upper_bound; lia).
  assert (Hj : (k mod length xs < length xs)%nat)
    by (apply Nat.mod_upper_bound; lia).
  destruct (lookup_lt_is_Some_2 ys _ Hi) as [grid_y Hy].
  destruct (lookup_lt_is_Some_2 xs _ Hj) as [grid_x Hx].
  assert (Hkeq : k = (k / length xs * length xs + k mod length xs)%nat).
  { rewrite (Nat.div_mod_eq k (length xs)) at 1. lia. }
  exists (k / length xs)%nat, (k mod length xs)%nat, grid_y, grid_x.
  split; [exact Hkeq |]. split; [exact Hy |]. split; [exact Hx |].
  pose proof (grid_of_lookup half_h half_w ys xs _ _ _ _ Hy Hx) as Hcell.
  rewrite <- Hkeq, Hk in Hcell. injection Hcell as ->. reflexivity.
Qed.

(** X19. The anchors of [svhn_competition-og.py]: the computation raises
    exactly when the head's output has no row or no column; otherwise there
    is one anchor per output cell, in row-major order, anchor
    [i * W_out + j] being the square of side [fixed_anchor_size] centred at
    [((i + 0.5) * H / H_out, (j + 0.5) * W / W_out)]; every anchor has height
    and width [fixed_anchor_size], hence strictly positive ones when
    [fixed_anchor_size] is positive. *)
Theorem anchors_fixed_grid size (H W H_out W_out : nat) :
  (H_out = 0%nat \/ W_out = 0%nat -> anchors_fixed size H W H_out W_out = None) /\
  (H_out <> 0%nat -> W_out <> 0%nat ->
   exists anchors,
     anchors_fixed size H W H_out W_out = Some anchors /\
     length anchors = (H_out * W_out)%nat /\
     (forall i j : nat, (i < H_out)%nat -> (j < W_out)%nat ->
        anchors !! (i * W_out + j)%nat
        = Some (mkBox ((INR i + 1 / 2) * (INR H / INR H_out) - size / 2)
                      ((INR j + 1 / 2) * (INR W / INR W_out) - size / 2)
                      ((INR i + 1 / 2) * (INR H / INR H_out) + size / 2)
                      ((INR j + 1 / 2) * (INR W / INR W_out) + size / 2))) /\
     Forall (fun b => b_bottom b - b_top b = size /\ b_right b - b_left b = size) anchors /\
     (0 < size -> Forall positive_size anchors)).
Proof.
  unfold anchors_fixed. split.
  - intros [-> | ->]; [reflexivity |]. destruct (decide (H_out = 0%nat)); reflexivity.
  - intros Hh Hw. rewrite !decide_False by assumption. cbv zeta.
    eexists. split; [reflexivity |].
    assert (Hsize : Forall (fun b => b_bottom b - b_top b = size /\
                                     b_right b - b_left b = size)
                      (grid_of (size / 2) (size / 2)
                         (cell_centres H_out (INR H / INR H_out))
                         (cell_centres W_out (INR W / INR W_out)))).
    { apply Forall_lookup. intros k b Hk.
      apply grid_of_lookup_inv in Hk as (i & j & gy & gx & _ & _ & _ & ->).
      simpl. split; lra. }
    split; [rewrite grid_of_length, !cell_centres_length; reflexivity |].
    split; [| split; [exact Hsize |]].
    + intros i j Hi Hj.
      rewrite <- (cell_centres_length W_out (INR W / INR W_out)) at 1.
      apply grid_of_lookup; apply cell_centres_lookup; assumption.
    + intros Hpos. eapply list.Forall_impl; [exact Hsize |].
      intros b [Hbh Hbw]. unfold positive_size. lra.
Qed.

Lemma anchors_fixed_grid_witness :
  exists anchors,
    anchors_fixed 50 224 224 7 7 = Some anchors /\ length anchors = 49%nat /\
    Forall positive_size anchors.
Proof.
  destruct (proj2 (anchors_fixed_grid 50 224 224 7 7))
    as (anchors & Hret & Hlen & _ & _ & Hpos); [lia | lia |].
  exists anchors. split; [exact Hret |]. split; [exact Hlen | apply Hpos; lra].
Defined.

(** X20. The anchors of [cags_classification_npfl.py] tile the input: for a
    non-empty input and output there is one anchor per output cell, in
    row-major order, anchor [i * W_out + j] being the cell
    [[i * sy, j * sx, (i + 1) * sy, (j + 1) * sx]] with [sy = H / H_out] and
    [sx = W / W_out]; every anchor has strictly positive height and width,
    and the interiors of two different anchors do not meet. *)
Theorem anchors_cells_tile (H W H_out W_out : nat) :
  H <> 0%nat -> W <> 0%nat -> H_out <> 0%nat -> W_out <> 0%nat ->
  exists anchors,
    anchors_cells H W H_out W_out = Some anchors /\
    length anchors = (H_out * W_out)%nat /\
    (forall i j : nat, (i < H_out)%nat -> (j < W_out)%nat ->
       anchors !! (i * W_out + j)%nat
       = Some (mkBox (INR i * (INR H / INR H_out)) (INR j * (INR W / INR W_out))
                     (INR (S i) * (INR H / INR H_out))
                     (INR (S j) * (INR W / INR W_out)))) /\
    Forall positive_size anchors /\
    (forall (k l : nat) a b, k <> l ->
       anchors !! k = Some a -> anchors !! l = Some b -> apart a b).
Proof.
  intros HH HW Hh Hw. unfold anchors_cells.
  rewrite !decide_False by assumption. cbv zeta.
  set (sy := INR H / INR H_out). set (sx := INR W / INR W_out).
  assert (Hsy : 0 < sy).
  { apply Rdiv_lt_0_compat; apply lt_0_INR; lia. }
  assert (Hsx : 0 < sx).
  { apply Rdiv_lt_0_compat; apply lt_0_INR; lia. }
  assert (Hcell : forall i j : nat, (i < H_out)%nat -> (j < W_out)%nat ->
            grid_of (sy / 2) (sx / 2) (cell_centres H_out sy) (cell_centres W_out sx)
              !! (i * W_out + j)%nat
            = Some (mkBox (INR i * sy) (INR j * sx) (INR (S i) * sy) (INR (S j) * sx))).
  { intros i j Hi Hj.
    rewrite <- (cell_centres_length W_out sx) at 1.
    rewrite (grid_of_lookup _ _ _ _ i j _ _
               (cell_centres_lookup H_out sy i Hi) (cell_centres_lookup W_out sx j Hj)).
    rewrite !S_INR. f_equal. f_equal; field. }
  assert (Hinv : forall (k : nat) b,
            grid_of (sy / 2) (sx / 2) (cell_centres H_out sy) (cell_centres W_out sx)
              !! k = Some b ->
            exists i j : nat, (i < H_out)%nat /\ (j < W_out)%nat /\
              k = (i * W_out + j)%nat /\
              b = mkBox (INR i * sy) (INR j * sx) (INR (S i) * sy) (INR (S j) * sx)).
  { intros k b Hk.
    apply grid_of_lookup_inv in Hk as Hk'.
    destruct Hk' as (i & j & gy & gx & Hkeq & Hy & Hx & _).
    rewrite cell_centres_length in Hkeq.
    apply lookup_lt_Some in Hy, Hx. rewrite cell_centres_length in Hy, Hx.
    exists i, j. split; [exact Hy |]. split; [exact Hx |]. split; [exact Hkeq |].
    rewrite Hkeq, (Hcell i j Hy Hx) in Hk. injection Hk as <-. reflexivity. }
  eexists. split; [reflexivity |].
  split; [rewrite grid_of_length, !cell_centres_length; reflexivity |].
  split; [exact Hcell |]. split.
  - apply Forall_lookup. intros k b Hk.
    destruct (Hinv k b Hk) as (i & j & _ & _ & _ & ->).
    unfold positive_size. cbn [b_top b_bottom b_left b_right].
    rewrite !S_INR. split; lra.
  - intros k l a b Hkl Hk Hl.
    destruct (Hinv k a Hk) as (i & j & Hi & Hj & -> & ->).
    destruct (Hinv l b Hl) as (i' & j' & Hi' & Hj' & -> & ->).
    unfold apart. cbn [b_top b_bottom b_left b_right].
    destruct (Nat.lt_trichotomy i i') as [Hlt | [-> | Hlt]].
    + left. apply Rmult_le_compat_r; [lra | apply le_INR; lia].
    + destruct (Nat.lt_trichotomy j j') as [Hltj | [-> | Hltj]].
      * right. right. left. apply Rmult_le_compat_r; [lra | apply le_INR; lia].
      * congruence.
      * right. right. right. apply Rmult_le_compat_r; [lra | apply le_INR; lia].
    + right. left. apply Rmult_le_compat_r; [lra | apply le_INR; lia].
Qed.

Lemma anchors_cells_tile_witness :
  exists anchors,
    anchors_cells 224 224 7 7 = Some anchors /\ length anchors = 49%nat /\
    Forall positive_size anchors.
Proof.
  destruct (anchors_cells_tile 224 224 7 7)
    as (anchors & Hret & Hlen & _ & Hpos & _); [lia | lia | lia | lia |].
  exists anchors. split; [exact Hret |]. split; [exact Hlen | exact Hpos].
Defined.

End Grids.
